(** * Kriging-based interference power constraint: a shallow embedding

    The program under study is [main.py]: one Monte-Carlo trial ([dosim])
    and the driver loop of the [__main__] block.  Python floats are read as
    real numbers (type [R]).  The theorems about the program name the
    computation the code performs, in its order of operations; they assert
    no identity between different computations that holds only without
    rounding.  Lines 96 and 98 are given a second time on IEEE 754 doubles
    (module [Doubles]), where the path loss that is added and subtracted
    again does not cancel.

    The helper module [kriging] that [main.py] imports is not part of the
    sources at hand.  The first half of the development therefore takes its
    functions as an interface ([Externals]); the second half models the
    estimator, the fitter and the ordinary-kriging solver from the written
    specification (module [KrigingSpec]). *)

From Stdlib Require Import Reals List Lia Lra Arith Bool ClassicalEpsilon.
From Stdlib Require Import Permutation.
From Stdlib Require Floats.
Import ListNotations.

Open Scope R_scope.

(** ** Exceptions and results *)

(** The exceptions the code can raise: Python's own for indexing, shapes and
    division, and the four of the specification's taxonomy. *)
Inductive exn : Type :=
| IndexError
| ValueError
| ZeroDivisionError
| InsufficientDataError
| FitConvergenceError
| SingularSystemError
| InvalidProbabilityError.

Inductive result (A : Type) : Type :=
| Ok (a : A)
| Raise (e : exn).

Arguments Ok {A} a.
Arguments Raise {A} e.

(** A computation that reads the global random generator: it threads the
    generator's state and may raise. *)
Definition sim (rng A : Type) : Type := rng -> result (A * rng).

Definition ret {rng A : Type} (a : A) : sim rng A :=
  fun s => Ok (a, s).

Definition bind {rng A B : Type} (c : sim rng A) (k : A -> sim rng B) : sim rng B :=
  fun s => match c s with
           | Ok (a, s') => k a s'
           | Raise e => Raise e
           end.

Definition lift {rng A : Type} (r : result A) : sim rng A :=
  fun s => match r with
           | Ok a => Ok (a, s)
           | Raise e => Raise e
           end.

Notation "x <- c ;; k" := (bind c (fun x => k))
  (at level 61, c at next level, right associativity).
Notation "' pat <- c ;; k" := (bind c (fun x => match x with pat => k end))
  (at level 61, pat pattern, c at next level, right associativity).

(** ** One-dimensional numpy arrays as lists *)

(** [a[i]]: raises [IndexError] out of range. *)
Definition getitem (a : list R) (i : nat) : result R :=
  match nth_error a i with
  | Some v => Ok v
  | None => Raise IndexError
  end.

Fixpoint update (a : list R) (i : nat) (v : R) : list R :=
  match a, i with
  | [], _ => []
  | _ :: t, O => v :: t
  | h :: t, S i' => h :: update t i' v
  end.

(** [a[i] = v]: raises [IndexError] out of range. *)
Definition setitem (a : list R) (i : nat) (v : R) : result (list R) :=
  if (i <? length a)%nat then Ok (update a i v) else Raise IndexError.

Fixpoint zip_with (f : R -> R -> R) (u v : list R) : list R :=
  match u, v with
  | a :: u', b :: v' => f a b :: zip_with f u' v'
  | _, _ => []
  end.

(** An elementwise binary operation on two one-dimensional arrays, with
    numpy's broadcasting: equal lengths, or one operand of length one;
    any other pair of shapes raises [ValueError]. *)
Definition broadcast2 (f : R -> R -> R) (u v : list R) : result (list R) :=
  if (length u =? length v)%nat then Ok (zip_with f u v)
  else match u, v with
       | [a], _ => Ok (map (f a) v)
       | _, [b] => Ok (map (fun a => f a b) u)
       | _, _ => Raise ValueError
       end.

Fixpoint zip3 (x y z : list R) : list (R * R * R) :=
  match x, y, z with
  | a :: x', b :: y', c :: z' => (a, b, c) :: zip3 x' y' z'
  | _, _, _ => []
  end.

(** [np.vstack([x, y, z]).T]: one row [(x_i, y_i, z_i)] per sample; the three
    arrays must have one length. *)
Definition vstack_T (x y z : list R) : result (list (R * R * R)) :=
  if ((length x =? length y) && (length y =? length z))%nat
  then Ok (zip3 x y z)
  else Raise ValueError.

(** [np.log10]. *)
Definition log10 (x : R) : R := ln x / ln 10.

(** ** Module-level configuration of main.py *)

Definition R_MEASURE : R := 100.
Definition DCOR : R := 20.
Definition STDEV_PU : R := 8.
Definition STDEV_SU : R := STDEV_PU.
Definition PUTX_X : R := -1000.
Definition PUTX_Y : R := R_MEASURE.
Definition SUTX_X : R := 1000.
Definition SUTX_Y : R := R_MEASURE.
Definition PTX : R := 30.
Definition ETA : R := 35 / 10.
Definition RX_X : R := R_MEASURE.
Definition RX_Y : R := R_MEASURE.

Definition D_MAX : R := 2 * R_MEASURE.
Definition N_SEMIVAR : nat := 20.

(** ** What main.py imports *)

(** The functions of [kriging], [scipy.special] and [np.random] that
    [main.py] calls.  [distance], [pathloss] and [erfinv] are elementwise
    and total (scipy's [erfinv] raises for no float: it returns an infinity
    at -1 and 1 and nan outside, values the reals do not have); the
    generators draw from the global random state; every array-level
    function may raise. *)
Class Externals (rng : Type) : Type := {
  gen_location_vector_on_circle : nat -> R -> sim rng (list R * list R);
  gen_varcov_matrix : list R -> list R -> R -> R -> result (list (list R));
  gen_multivariate_normal : list (list R) -> sim rng (list R);
  distance : R -> R -> R -> R -> R;
  pathloss : R -> R -> R;
  gen_emprical_semivar : list (R * R * R) -> R -> nat -> result (list R * list R);
  fit_semivar : list R -> list R -> result (R * R * R);
  gen_mat_for_kriging :
    list R -> list R -> list R -> R -> R -> R -> result (list (list R));
  ordinary_kriging :
    list (list R) -> list R -> list R -> list R -> R -> R -> R -> R -> R ->
    result (R * R);
  erfinv : R -> R;
  random_normal : R -> R -> sim rng R
}.

(** ** dosim: one Monte-Carlo trial (main.py, lines 65-100) *)

Definition dosim {rng : Type} `{Externals rng}
  (sir_d_db pout : R) (n : nat) : sim rng (R * R * R * R) :=
  (* get measurement dataset on a circle *)
  '(x, y) <- gen_location_vector_on_circle (n + 1) R_MEASURE ;;
  x <- lift (setitem x n RX_X) ;;
  y <- lift (setitem y n RX_Y) ;;
  cov <- lift (gen_varcov_matrix x y DCOR STDEV_PU) ;;
  z <- gen_multivariate_normal cov ;;
  d <- lift (broadcast2 (distance PUTX_X PUTX_Y) x y) ;;
  let l := map (fun di => pathloss di ETA) d in
  prx <- lift (broadcast2 Rplus (map (fun li => PTX - li) l) z) ;;
  (* semivariogram modeling *)
  let x_train := firstn n x in
  let y_train := firstn n y in
  let prx_train := firstn n prx in
  data <- lift (vstack_T x_train y_train prx_train) ;;
  '(d_sv, sv) <- lift (gen_emprical_semivar data D_MAX N_SEMIVAR) ;;
  '(nug, sill, ran) <- lift (fit_semivar d_sv sv) ;;
  (* radio map construction based on Ordinary Kriging *)
  mat <- lift (gen_mat_for_kriging x_train y_train prx_train nug sill ran) ;;
  '(prx_est, kvar) <-
    lift (ordinary_kriging mat x_train y_train prx_train RX_X RX_Y nug sill ran) ;;
  prx_n <- lift (getitem prx n) ;;
  let err := prx_est - prx_n in
  (* secondary transmission power design *)
  let imax_avg :=
    prx_est - sir_d_db
    + sqrt (2 * (kvar + STDEV_SU ^ 2)) * erfinv (2 * pout - 1) in
  let d_su := distance SUTX_X SUTX_Y RX_X RX_Y in
  let l_su := pathloss d_su ETA in
  let pmax_est := imax_avg + l_su in
  prx_n' <- lift (getitem prx n) ;;
  w <- random_normal 0 STDEV_SU ;;
  let sir := prx_n' - (pmax_est - l_su + w) in
  ret (sir, kvar, err, pmax_est).

(** ** Lines 96 and 98 on doubles

    The transmit power and the realized SIR as [dosim] computes them, in
    binary64 arithmetic with rounding to nearest, which Python floats and
    numpy's float64 use: [pmax_est = imax_avg + l_su] and
    [sir = prx[n] - (pmax_est - l_su + w)], with [w] the shadowing draw. *)

Module Doubles.

Import PrimFloat.

Definition pmax_est (imax_avg l_su : float) : float :=
  (imax_avg + l_su)%float.

Definition sir (prx_n pmax_est l_su w : float) : float :=
  (prx_n - (pmax_est - l_su + w))%float.

End Doubles.

(** ** The driver loop (main.py, lines 102-124) *)

(** The four accumulators of the loop. *)
Record Acc : Type := {
  cnt_outage : nat;
  kstdev_avg : R;
  rmse : R;
  psu_avg : R
}.

(** Lines 108-111. *)
Definition acc0 : Acc :=
  {| cnt_outage := 0; kstdev_avg := 0; rmse := 0; psu_avg := 0 |}.

(** The loop body after the call of [dosim] (lines 115-118); [res] is the
    tuple [(sir, kvar, err, pmax_est)] the trial returned.  ([sqrt] of a
    negative real is 0 where numpy gives nan; nothing below depends on the
    accumulated standard deviation.) *)
Definition accumulate (sir_d_db : R) (a : Acc) (res : R * R * R * R) : Acc :=
  let '(sir, kvar, err, pmax_est) := res in
  {| cnt_outage := cnt_outage a + (if Rlt_dec sir sir_d_db then 1 else 0);
     kstdev_avg := kstdev_avg a + sqrt kvar;
     rmse := rmse a + err ^ 2;
     psu_avg := psu_avg a + Rpower 10 (1 / 10 * pmax_est) |}.

(** [for i in range(loop)]: one trial per iteration, on the generator state
    the previous trial left. *)
Fixpoint for_range {rng : Type} `{Externals rng}
  (loop : nat) (sir_d_db pout : R) (n : nat) (a : Acc) : sim rng Acc :=
  match loop with
  | O => ret a
  | S loop' =>
      res <- dosim sir_d_db pout n ;;
      for_range loop' sir_d_db pout n (accumulate sir_d_db a res)
  end.

(** The four printed figures. *)
Record Report : Type := {
  outage_probability : R;
  average_kriging_stdev : R;
  rmse_db : R;
  average_tx_power : R
}.

(** Lines 119-124: every figure divides by [loop]; Python raises
    [ZeroDivisionError] for [loop = 0]. *)
Definition report (loop : nat) (a : Acc) : result Report :=
  match loop with
  | O => Raise ZeroDivisionError
  | S _ =>
      Ok {| outage_probability := INR (cnt_outage a) / INR loop;
            average_kriging_stdev := kstdev_avg a / INR loop;
            rmse_db := sqrt (rmse a / INR loop);
            average_tx_power := 10 * log10 (psu_avg a / INR loop) |}
  end.

(** The [__main__] block with its four settings as arguments. *)
Definition simulate {rng : Type} `{Externals rng}
  (loop : nat) (pout sir_d_db : R) (n : nat) : sim rng Report :=
  a <- for_range loop sir_d_db pout n acc0 ;;
  lift (report loop a).

(** The [__main__] block as written: 1000 trials, target outage 0.10,
    target SIR 10 dB, 50 measurement samples. *)
Definition main {rng : Type} `{Externals rng} : sim rng Report :=
  simulate 1000 (10 / 100) 10 50.

(** The trials of a run, in order: what the loop's calls of [dosim] return. *)
Fixpoint trials {rng : Type} `{Externals rng}
  (loop : nat) (sir_d_db pout : R) (n : nat) : sim rng (list (R * R * R * R)) :=
  match loop with
  | O => ret []
  | S loop' =>
      res <- dosim sir_d_db pout n ;;
      rest <- trials loop' sir_d_db pout n ;;
      ret (res :: rest)
  end.

(** Projections of a trial's tuple. *)
Definition trial_sir (res : R * R * R * R) : R := fst (fst (fst res)).
Definition trial_power (res : R * R * R * R) : R := snd res.

(** The number of trials whose realized SIR is below the target. *)
Definition outages (sir_d_db : R) (ts : list (R * R * R * R)) : nat :=
  length (filter (fun res => if Rlt_dec (trial_sir res) sir_d_db then true else false) ts).

(** Sum and arithmetic mean of a list of reals. *)
Definition Rsum (l : list R) : R := fold_right Rplus 0 l.
Definition mean (l : list R) : R := Rsum l / INR (length l).

(** Linear-scale power of a decibel value, as line 118 computes it. *)
Definition db_to_linear (p : R) : R := Rpower 10 (1 / 10 * p).

(** ** Vectors and matrices *)

Definition dot (u v : list R) : R := Rsum (zip_with Rmult u v).

Definition mat_vec (m : list (list R)) (v : list R) : list R :=
  map (fun row => dot row v) m.

(** The [k]-th unit vector of length [n]. *)
Fixpoint unit_vec (n k : nat) : list R :=
  match n with
  | O => []
  | S n' =>
      match k with
      | O => 1 :: repeat 0 n'
      | S k' => 0 :: unit_vec n' k'
      end
  end.

(** A square system has at most one solution. *)
Definition nonsingular (m : list (list R)) : Prop :=
  forall u v : list R,
    length u = length m -> length v = length m ->
    mat_vec m u = mat_vec m v -> u = v.

Definition Rleb (a b : R) : bool := if Rle_dec a b then true else false.
Definition Rltb (a b : R) : bool := if Rlt_dec a b then true else false.

(** ** The kriging module, modelled from the specification *)

Module KrigingSpec.

(** Modelled from the spec: the semivariogram model family of [kriging],
    a three-parameter function [semivar h nugget sill range] (data model,
    Semivariogram Model; design note on the pluggable model family). *)
Class SemivarModel : Type := {
  semivar : R -> R -> R -> R -> R
}.

(** Modelled from the spec: the dense general linear solver behind the
    kriging solve (design note on the solver interface); [None] stands for
    a system it reports as singular. *)
Class LinearSolver : Type := {
  solve : list (list R) -> list R -> option (list R)
}.

(** Modelled from the spec: the constrained nonlinear least-squares
    optimiser behind the model fit, given the objective and the initial
    guess; [None] stands for a failure to converge.  [range_guess] is the
    initial range, a fraction of the maximum lag distance. *)
Class Optimizer : Type := {
  least_squares : (R * R * R -> R) -> R * R * R -> option (R * R * R);
  range_guess : R
}.

(** Modelled from the spec: the contract of the solver, what it returns
    solves the system. *)
Definition solve_sound `{LinearSolver} : Prop :=
  forall (m : list (list R)) (b w : list R),
    solve m b = Some w -> length w = length b /\ mat_vec m w = b.

(** Modelled from the spec: the solver fails on singular systems only; on
    a non-singular system that has a solution it returns one. *)
Definition solve_complete `{LinearSolver} : Prop :=
  forall (m : list (list R)) (b : list R),
    nonsingular m ->
    (exists w : list R, length w = length b /\ mat_vec m w = b) ->
    solve m b <> None.

(** Modelled from the spec: the parameter constraints of the data model,
    [nugget >= 0], [sill >= 0], [range > 0]. *)
Definition feasible (p : R * R * R) : Prop :=
  let '(nug, sill, ran) := p in 0 <= nug /\ 0 <= sill /\ 0 < ran.

(** Modelled from the spec: the contract of the optimiser, the
    minimisation is subject to the parameter constraints. *)
Definition respects_constraints `{Optimizer} : Prop :=
  forall (f : R * R * R -> R) (p0 p : R * R * R),
    least_squares f p0 = Some p -> feasible p.

(** Modelled from the spec: the semivariogram contract at zero lag,
    [gamma(0) = nugget]. *)
Definition zero_lag_is_nugget `{SemivarModel} : Prop :=
  forall nug sill ran : R, semivar 0 nug sill ran = nug.

(** Modelled from the spec: an exponential model form. *)
Definition semivar_exp (h nug sill ran : R) : R :=
  nug + sill * (1 - exp (- h / ran)).

(** Modelled from the spec: Pair Distance, the Euclidean distance of two
    sample locations. *)
Definition distance (x1 y1 x2 y2 : R) : R :=
  sqrt ((x1 - x2) ^ 2 + (y1 - y2) ^ 2).

(** Modelled from the spec: [C(h) = (nugget + sill) - gamma(h)]. *)
Definition covariance `{SemivarModel} (h nug sill ran : R) : R :=
  (nug + sill) - semivar h nug sill ran.

(** *** Semivariogram Estimator *)

(** Modelled from the spec: every unordered pair of distinct samples,
    once. *)
Fixpoint pairs {A : Type} (l : list A) : list (A * A) :=
  match l with
  | [] => []
  | a :: t => map (pair a) t ++ pairs t
  end.

(** Modelled from the spec: the distance of a pair of samples. *)
Definition pair_distance (p : (R * R * R) * (R * R * R)) : R :=
  let '((x1, y1, _), (x2, y2, _)) := p in distance x1 y1 x2 y2.

(** Modelled from the spec: the term [0.5 * (v_i - v_j)^2] a pair adds to
    its bin. *)
Definition half_sq_diff (p : (R * R * R) * (R * R * R)) : R :=
  let '((_, _, v1), (_, _, v2)) := p in 1 / 2 * (v1 - v2) ^ 2.

(** Modelled from the spec: bin [k] of the [n_bins] equal-width intervals
    of [[0, d_max]], half-open, the last one closed at [d_max]. *)
Definition in_bin (d_max : R) (n_bins k : nat) (d : R) : bool :=
  let width := d_max / INR n_bins in
  Rleb (INR k * width) d
  && (Rltb d (INR (k + 1) * width) || ((k + 1 =? n_bins)%nat && Rleb d d_max)).

(** Modelled from the spec: the Empirical Semivariogram Point of bin [k],
    the bin centre and the average of the accumulated half squared
    differences; none for a bin without pairs. *)
Definition bin_point (data : list (R * R * R)) (d_max : R) (n_bins k : nat)
  : option (R * R) :=
  let ps := filter (fun p => in_bin d_max n_bins k (pair_distance p)) (pairs data) in
  match ps with
  | [] => None
  | _ :: _ =>
      Some ((INR k + 1 / 2) * (d_max / INR n_bins),
            Rsum (map half_sq_diff ps) / INR (length ps))
  end.

(** Modelled from the spec: bins with zero pairs are omitted. *)
Fixpoint drop_empty {A : Type} (l : list (option A)) : list A :=
  match l with
  | [] => []
  | Some a :: t => a :: drop_empty t
  | None :: t => drop_empty t
  end.

(** Modelled from the spec: the Semivariogram Estimator (component design,
    4.1), called as [gen_emprical_semivar(data, D_MAX, N_SEMIVAR)]; it
    returns the lag distances and the semivariances of the non-empty bins. *)
Definition gen_emprical_semivar (data : list (R * R * R)) (d_max : R) (num : nat)
  : result (list R * list R) :=
  if (length data <? 2)%nat then Raise InsufficientDataError
  else Ok (split (drop_empty (map (bin_point data d_max num) (seq 0 num)))).

(** *** Semivariogram Model Fitter *)

(** Modelled from the spec: the sum of squared residuals between the
    empirical points and the model curve. *)
Definition residuals `{SemivarModel} (d_sv sv : list R) (p : R * R * R) : R :=
  let '(nug, sill, ran) := p in
  Rsum (zip_with (fun d s => (s - semivar d nug sill ran) ^ 2) d_sv sv).

(** Modelled from the spec: the minimum and the maximum observed
    semivariance, for the initial guesses. *)
Definition list_min (l : list R) : R :=
  match l with
  | [] => 0
  | a :: t => fold_right Rmin a t
  end.

Definition list_max (l : list R) : R :=
  match l with
  | [] => 0
  | a :: t => fold_right Rmax a t
  end.

(** Modelled from the spec: the Semivariogram Model Fitter (component
    design, 4.2), called as [fit_semivar(d_sv, sv)]; it returns
    [(nugget, sill, range)]. *)
Definition fit_semivar `{SemivarModel} `{Optimizer} (d_sv sv : list R)
  : result (R * R * R) :=
  if (length d_sv <? 3)%nat then Raise FitConvergenceError
  else
    let nug0 := list_min sv in
    let sill0 := list_max sv - nug0 in
    match least_squares (residuals d_sv sv) (nug0, sill0, range_guess) with
    | Some p => Ok p
    | None => Raise FitConvergenceError
    end.

(** *** Ordinary Kriging Solver *)

(** Modelled from the spec: the covariances between location [p] and
    every sample. *)
Definition cov_row `{SemivarModel} (pts : list (R * R)) (nug sill ran : R)
  (p : R * R) : list R :=
  map (fun q => covariance (distance (fst p) (snd p) (fst q) (snd q)) nug sill ran)
      pts.

(** Modelled from the spec: the covariance matrix of a list of
    locations. *)
Definition cov_matrix `{SemivarModel} (pts : list (R * R)) (nug sill ran : R)
  : list (list R) :=
  map (cov_row pts nug sill ran) pts.

(** Modelled from the spec: a valid covariance model is positive
    semidefinite on a list of locations, no linear combination of the field
    values there has a negative variance. *)
Definition covariance_psd `{SemivarModel} (pts : list (R * R)) (nug sill ran : R)
  : Prop :=
  forall a : list R,
    length a = length pts ->
    0 <= dot a (mat_vec (cov_matrix pts nug sill ran) a).

(** Modelled from the spec: the bordered [(n+1) x (n+1)] Kriging Linear
    System (component design, 4.3, step 1), called as
    [gen_mat_for_kriging(x, y, z, nugget, sill, range)]. *)
Definition gen_mat_for_kriging `{SemivarModel}
  (x y z : list R) (nug sill ran : R) : list (list R) :=
  let pts := combine x y in
  map (fun p => cov_row pts nug sill ran p ++ [1]) pts
  ++ [repeat 1 (length pts) ++ [0]].

(** Modelled from the spec: the right-hand vector (component design, 4.3,
    step 2), the covariance between the query and each sample, then 1. *)
Definition gen_vec_for_kriging `{SemivarModel}
  (x y : list R) (x_q y_q nug sill ran : R) : list R :=
  cov_row (combine x y) nug sill ran (x_q, y_q) ++ [1].

(** Modelled from the spec: the Ordinary Kriging Solver (component design,
    4.3, steps 2-5), called as
    [ordinary_kriging(mat, x, y, z, x_q, y_q, nugget, sill, range)]; it
    returns [(estimate, variance)]. *)
Definition ordinary_kriging `{SemivarModel} `{LinearSolver}
  (mat : list (list R)) (x y z : list R) (x_q y_q nug sill ran : R)
  : result (R * R) :=
  let n := length z in
  let b := gen_vec_for_kriging x y x_q y_q nug sill ran in
  match solve mat b with
  | None => Raise SingularSystemError
  | Some w =>
      let mu := nth n w 0 in
      let est := dot (firstn n w) z in
      let var := (nug + sill) - dot (firstn n w) (firstn n b) - mu in
      Ok (est, var)
  end.

(** *** Instances on which the model evaluates *)

(** The exponential family as the model. *)
Definition exponential_model : SemivarModel := {| semivar := semivar_exp |}.

(** A solver that returns a solution whenever the system has one. *)
Definition ideal_solve (m : list (list R)) (b : list R) : option (list R) :=
  match excluded_middle_informative
          (exists w : list R, length w = length b /\ mat_vec m w = b) with
  | left Hex => Some (proj1_sig (constructive_indefinite_description _ Hex))
  | right _ => None
  end.

Definition ideal_solver : LinearSolver := {| solve := ideal_solve |}.

End KrigingSpec.

(** ** A stand-in for the imported functions

    A deterministic instance of [Externals] whose generator state is a
    counter, on which the definitions above evaluate.  It fixes no property
    of the real library: it shows the hypotheses of the theorems below can
    be met. *)

#[global] Instance toy_externals : Externals nat := {|
  gen_location_vector_on_circle := fun k _ => ret (repeat 0 k, repeat 0 k);
  gen_varcov_matrix := fun _ _ _ _ => Ok [];
  gen_multivariate_normal := fun _ s => Ok ([INR s], S s);
  distance := fun _ _ _ _ => 0;
  pathloss := fun _ _ => 0;
  gen_emprical_semivar := fun _ _ _ => Ok ([], []);
  fit_semivar := fun _ _ => Ok (0, 0, 1);
  gen_mat_for_kriging := fun _ _ _ _ _ _ => Ok [];
  ordinary_kriging := fun _ _ _ z _ _ _ _ _ => Ok (Rsum z, 1);
  erfinv := fun _ => 0;
  random_normal := fun mu _ => ret mu
|}.

(** Further projections of a trial's tuple. *)
Definition trial_kvar (res : R * R * R * R) : R := snd (fst (fst res)).
Definition trial_err (res : R * R * R * R) : R := snd (fst res).

(** A family of stand-ins: the location generator returns [loc k] for a
    request of [k] points and the shadowing generator returns [shadow s] in
    state [s]; everything else is as in [toy_externals]. *)
Definition stub_externals (loc : nat -> list R * list R) (shadow : nat -> list R)
  : Externals nat := {|
  gen_location_vector_on_circle := fun k _ => ret (loc k);
  gen_varcov_matrix := fun _ _ _ _ => Ok [];
  gen_multivariate_normal := fun _ s => Ok (shadow s, S s);
  distance := fun _ _ _ _ => 0;
  pathloss := fun _ _ => 0;
  gen_emprical_semivar := fun _ _ _ => Ok ([], []);
  fit_semivar := fun _ _ => Ok (0, 0, 1);
  gen_mat_for_kriging := fun _ _ _ _ _ _ => Ok [];
  ordinary_kriging := fun _ _ _ z _ _ _ _ _ => Ok (Rsum z, 1);
  erfinv := fun _ => 0;
  random_normal := fun mu _ => ret mu
|}.

(** Three locations' worth of shadowing per draw. *)
Definition wide_externals : Externals nat :=
  stub_externals (fun k => (repeat 0 k, repeat 0 k)) (fun s => [INR s; 7; 9]).

(** A location generator that returns nothing. *)
Definition short_externals : Externals nat :=
  stub_externals (fun _ => ([], [])) (fun _ => []).

(** A shadowing vector of five entries, whatever the number of locations. *)
Definition ragged_externals : Externals nat :=
  stub_externals (fun k => (repeat 0 k, repeat 0 k)) (fun _ => [1; 2; 3; 4; 5]).

(** ** Proof automation *)

(** Settles every comparison of two concrete reals in the goal. *)
Ltac decide_comparisons :=
  repeat match goal with
         | |- context [Rle_dec ?a ?b] =>
             destruct (Rle_dec a b); try (exfalso; simpl in *; lra)
         | |- context [Rlt_dec ?a ?b] =>
             destruct (Rlt_dec a b); try (exfalso; simpl in *; lra)
         end.

(** * Sums, means and decibels *)

Lemma Rsum_map_le (A : Type) (f g : A -> R) (l : list A) :
  (forall x, In x l -> f x <= g x) -> Rsum (map f l) <= Rsum (map g l).
Proof.
  induction l as [ | a l IH ]; simpl; intros Hle.
  - lra.
  - assert (f a <= g a) by (apply Hle; left; reflexivity).
    assert (Rsum (map f l) <= Rsum (map g l)) by (apply IH; intros; apply Hle; right; assumption).
    lra.
Qed.

Lemma Rsum_map_lt (A : Type) (f g : A -> R) (l : list A) :
  (forall x, In x l -> f x <= g x) ->
  (exists x, In x l /\ f x < g x) ->
  Rsum (map f l) < Rsum (map g l).
Proof.
  induction l as [ | a l IH ]; simpl; intros Hle (x & Hin & Hlt).
  - contradiction.
  - assert (Ha : f a <= g a) by (apply Hle; left; reflexivity).
    assert (Hl : Rsum (map f l) <= Rsum (map g l))
      by (apply Rsum_map_le; intros; apply Hle; right; assumption).
    destruct Hin as [-> | Hin].
    + lra.
    + assert (Rsum (map f l) < Rsum (map g l)).
      { apply IH.
        - intros; apply Hle; right; assumption.
        - exists x; split; assumption. }
      lra.
Qed.

Lemma Rsum_map_affine (a b : R) (l : list R) :
  Rsum (map (fun p => a + b * p) l) = a * INR (length l) + b * Rsum l.
Proof.
  induction l as [ | p l IH ].
  - simpl. ring.
  - unfold Rsum in *. cbn [map fold_right length].
    rewrite IH, S_INR. ring.
Qed.

Lemma ln_10_pos : 0 < ln 10.
Proof.
  rewrite <- ln_1. apply ln_increasing; lra.
Qed.

(** The exponential lies above its tangent at [m], strictly away from [m]. *)
Lemma exp_above_tangent (c m p : R) :
  exp (c * m) * (1 + c * (p - m)) <= exp (c * p).
Proof.
  replace (c * p) with (c * m + c * (p - m)) by ring.
  rewrite exp_plus. apply Rmult_le_compat_l.
  - left. apply exp_pos.
  - apply exp_ineq1_le.
Qed.

Lemma exp_above_tangent_strict (c m p : R) :
  c <> 0 -> p <> m ->
  exp (c * m) * (1 + c * (p - m)) < exp (c * p).
Proof.
  intros Hc Hp.
  replace (c * p) with (c * m + c * (p - m)) by ring.
  rewrite exp_plus. apply Rmult_lt_compat_l.
  - apply exp_pos.
  - apply exp_ineq1. intros Hz.
    apply Rmult_integral in Hz. destruct Hz as [Hz | Hz]; [ contradiction | lra ].
Qed.

(** Jensen's inequality for the decibel scale, over the reals: unless all
    values agree,
    the decibel value of the mean linear power exceeds the mean of the
    decibel values. *)
Lemma mean_db_lt_db_of_mean (ps : list R) :
  (exists a b, In a ps /\ In b ps /\ a <> b) ->
  mean ps < 10 * log10 (mean (map db_to_linear ps)).
Proof.
  intros (a & b & Ha & Hb & Hab).
  pose proof ln_10_pos as Hln.
  set (c := 1 / 10 * ln 10).
  assert (Hc : 0 < c) by (unfold c; lra).
  set (m := mean ps).
  assert (Hlen : 0 < INR (length ps)).
  { apply lt_0_INR. destruct ps; [ contradiction | simpl; lia ]. }
  assert (Hsum : Rsum ps = INR (length ps) * m).
  { unfold m, mean. field. lra. }
  assert (Hdb : forall p, db_to_linear p = exp (c * p)).
  { intros p. unfold db_to_linear, Rpower, c. f_equal. ring. }
  assert (Hlow : INR (length ps) * exp (c * m) < Rsum (map db_to_linear ps)).
  { replace (INR (length ps) * exp (c * m))
      with (Rsum (map (fun p => exp (c * m) * (1 + c * (p - m))) ps)).
    - apply Rsum_map_lt.
      + intros p _. rewrite Hdb. apply exp_above_tangent.
      + assert (Hex : a <> m \/ b <> m).
        { destruct (Req_dec a m) as [Ham | Ham]; [ right | left; exact Ham ].
          intros Hbm. apply Hab. rewrite Ham, Hbm. reflexivity. }
        destruct Hex as [Hne | Hne].
        * exists a. split; [ exact Ha | ].
          rewrite Hdb. apply exp_above_tangent_strict; [ lra | exact Hne ].
        * exists b. split; [ exact Hb | ].
          rewrite Hdb. apply exp_above_tangent_strict; [ lra | exact Hne ].
    - rewrite (map_ext _ (fun p => exp (c * m) * (1 - c * m) + exp (c * m) * c * p))
        by (intros; ring).
      rewrite Rsum_map_affine, Hsum. ring. }
  assert (Hmean : exp (c * m) < mean (map db_to_linear ps)).
  { unfold mean. rewrite length_map.
    apply (Rmult_lt_reg_l (INR (length ps))); [ exact Hlen | ].
    replace (INR (length ps) * (Rsum (map db_to_linear ps) / INR (length ps)))
      with (Rsum (map db_to_linear ps)) by (field; lra).
    exact Hlow. }
  assert (Hlog : c * m < ln (mean (map db_to_linear ps))).
  { rewrite <- (ln_exp (c * m)). apply ln_increasing; [ apply exp_pos | exact Hmean ]. }
  unfold log10.
  apply (Rmult_lt_reg_l c); [ exact Hc | ].
  replace (c * (10 * (ln (mean (map db_to_linear ps)) / ln 10)))
    with (ln (mean (map db_to_linear ps))) by (unfold c; field; lra).
  exact Hlog.
Qed.

(** * Properties of main.py *)

Section Simulation.

Context {rng : Type} `{Externals rng}.

Lemma bind_ok (A B : Type) (c : sim rng A) (k : A -> sim rng B) (s : rng)
  (r : B * rng) :
  bind c k s = Ok r -> exists a s1, c s = Ok (a, s1) /\ k a s1 = Ok r.
Proof.
  unfold bind. destruct (c s) as [[a s1] | e]; [ | discriminate ].
  intros Hk. exists a, s1. split; [ reflexivity | exact Hk ].
Qed.

Lemma lift_ok (A : Type) (r : result A) (s s1 : rng) (a : A) :
  lift r s = Ok (a, s1) -> r = Ok a /\ s1 = s.
Proof.
  unfold lift. destruct r as [a' | e]; [ | discriminate ].
  intros Heq. injection Heq as -> ->. split; reflexivity.
Qed.

(** What a returning trial went through: the solver's answer, the true
    received power at the evaluation location, the shadowing draw, and the
    four returned values in terms of them. *)
Lemma dosim_ok_inv (sir_d_db pout : R) (n : nat) (s s' : rng)
  (sir kvar err pmax_est : R) :
  dosim sir_d_db pout n s = Ok ((sir, kvar, err, pmax_est), s') ->
  exists (mat : list (list R)) (x_train y_train prx_train prx : list R)
         (nug sill ran prx_est prx_n w : R) (s1 : rng),
    ordinary_kriging mat x_train y_train prx_train RX_X RX_Y nug sill ran
      = Ok (prx_est, kvar)
    /\ getitem prx n = Ok prx_n
    /\ prx_train = firstn n prx
    /\ random_normal 0 STDEV_SU s1 = Ok (w, s')
    /\ err = prx_est - prx_n
    /\ pmax_est =
         prx_est - sir_d_db
         + sqrt (2 * (kvar + STDEV_SU ^ 2)) * erfinv (2 * pout - 1)
         + pathloss (distance SUTX_X SUTX_Y RX_X RX_Y) ETA
    /\ sir =
         prx_n - (pmax_est - pathloss (distance SUTX_X SUTX_Y RX_X RX_Y) ETA + w).
Proof.
  unfold dosim. intros Hrun.
  repeat match type of Hrun with
         | bind _ _ _ = Ok _ =>
             let a := fresh "a" in
             let st := fresh "st" in
             let Hstep := fresh "Hstep" in
             apply bind_ok in Hrun as (a & st & Hstep & Hrun);
             try (apply lift_ok in Hstep as [Hstep ->])
         | match ?a with pair _ _ => _ end _ = Ok _ => destruct a
         end.
  unfold ret in Hrun. injection Hrun as <- <- <- <- <-.
  repeat match goal with
         | p : (_ * _)%type |- _ => destruct p
         end.
  match goal with
  | H1 : getitem ?p n = Ok _, H2 : getitem ?p n = Ok _ |- _ =>
      rewrite H1 in H2; injection H2 as <-
  end.
  match goal with
  | Hk : ordinary_kriging ?m ?xt ?yt ?pt _ _ ?a ?b ?c = Ok _,
    Hg : getitem ?prx n = Ok ?pn,
    Hw : random_normal 0 STDEV_SU ?s1 = Ok _ |- _ =>
      exists m, xt, yt, pt, prx, a, b, c
  end.
  do 3 eexists. eexists.
  repeat split; try eassumption; try reflexivity.
Qed.

(** C1. The power rule of a trial: the maximum tolerable average
    interference is the kriging estimate minus the SIR threshold plus
    [sqrt (2 * (kriging variance + STDEV_SU ^ 2)) * erfinv (2 * pout - 1)],
    and the returned transmit power is that bound plus the path loss from
    the secondary transmitter to the receiver.  The estimate and the
    variance are what the solver returned at the receiver location. *)
Theorem power_rule_formula (sir_d_db pout : R) (n : nat) (s s' : rng)
  (sir kvar err pmax_est : R) :
  dosim sir_d_db pout n s = Ok ((sir, kvar, err, pmax_est), s') ->
  exists (mat : list (list R)) (x_train y_train prx_train : list R)
         (nug sill ran prx_est imax_avg : R),
    ordinary_kriging mat x_train y_train prx_train RX_X RX_Y nug sill ran
      = Ok (prx_est, kvar)
    /\ imax_avg =
         prx_est - sir_d_db
         + sqrt (2 * (kvar + STDEV_SU ^ 2)) * erfinv (2 * pout - 1)
    /\ pmax_est = imax_avg + pathloss (distance SUTX_X SUTX_Y RX_X RX_Y) ETA.
Proof.
  intros Hrun.
  destruct (dosim_ok_inv _ _ _ _ _ _ _ _ _ Hrun)
    as (mat & xt & yt & pt & prx & nug & sill & ran & prx_est & prx_n & w & s1
        & Hk & _ & _ & _ & _ & Hp & _).
  exists mat, xt, yt, pt, nug, sill, ran, prx_est.
  eexists. split; [ exact Hk | ]. split; [ reflexivity | exact Hp ].
Qed.

(** C5, as the code has it.  The power rule does not check [pout]: whether
    a trial returns, which exception it raises otherwise, the state it
    leaves the generator in, the kriging variance and the estimation error
    are the same for any two values of [pout], in or out of (0,1). *)
Theorem dosim_ignores_pout_range (sir_d_db pout pout' : R) (n : nat) (s : rng) :
  match dosim sir_d_db pout n s, dosim sir_d_db pout' n s with
  | Ok ((_, kvar, err, _), s1), Ok ((_, kvar', err', _), s2) =>
      s1 = s2 /\ kvar = kvar' /\ err = err'
  | Raise e, Raise e' => e = e'
  | _, _ => False
  end.
Proof.
  unfold dosim, bind, lift, ret.
  repeat match goal with
         | |- context [match ?c with _ => _ end] =>
             lazymatch c with
             | context [match _ with _ => _ end] => fail
             | _ => destruct c
             end
         end;
    auto.
Qed.

(** The loop is a left fold of [accumulate] over the trials it ran. *)
Lemma for_range_trials (loop : nat) (sir_d_db pout : R) (n : nat) :
  forall (a a' : Acc) (s s' : rng),
    for_range loop sir_d_db pout n a s = Ok (a', s') ->
    exists ts : list (R * R * R * R),
      trials loop sir_d_db pout n s = Ok (ts, s')
      /\ length ts = loop
      /\ a' = fold_left (accumulate sir_d_db) ts a.
Proof.
  induction loop as [ | loop IH ]; intros a a' s s' Hrun.
  - injection Hrun as <- <-. exists []. repeat split.
  - cbn [for_range] in Hrun.
    apply bind_ok in Hrun as (res & s1 & Hres & Hrun).
    apply IH in Hrun as (ts & Hts & Hlen & Hacc).
    exists (res :: ts). cbn [trials]. unfold bind at 1. rewrite Hres.
    unfold bind. rewrite Hts. unfold ret.
    repeat split; [ simpl; lia | exact Hacc ].
Qed.

Lemma trials_deterministic (loop : nat) (sir_d_db pout : R) (n : nat)
  (s s1 s2 : rng) (ts1 ts2 : list (R * R * R * R)) :
  trials loop sir_d_db pout n s = Ok (ts1, s1) ->
  trials loop sir_d_db pout n s = Ok (ts2, s2) ->
  ts1 = ts2.
Proof.
  intros H1 H2. rewrite H1 in H2. injection H2 as -> _. reflexivity.
Qed.

Lemma fold_accumulate_cnt (sir_d_db : R) (ts : list (R * R * R * R)) :
  forall a : Acc,
    cnt_outage (fold_left (accumulate sir_d_db) ts a)
    = (cnt_outage a + outages sir_d_db ts)%nat.
Proof.
  unfold outages.
  induction ts as [ | [[[sir kvar] err] pmax] ts IH ]; intros a.
  - simpl. lia.
  - cbn [fold_left filter]. rewrite IH.
    change (trial_sir (sir, kvar, err, pmax)) with sir.
    cbn [accumulate cnt_outage].
    destruct (Rlt_dec sir sir_d_db); simpl; lia.
Qed.

Lemma fold_accumulate_psu (sir_d_db : R) (ts : list (R * R * R * R)) :
  forall a : Acc,
    psu_avg (fold_left (accumulate sir_d_db) ts a)
    = psu_avg a + Rsum (map db_to_linear (map trial_power ts)).
Proof.
  induction ts as [ | [[[sir kvar] err] pmax] ts IH ]; intros a.
  - simpl. ring.
  - cbn [fold_left map]. rewrite IH.
    unfold Rsum. cbn [fold_right accumulate psu_avg trial_power snd].
    unfold db_to_linear. ring.
Qed.

Lemma outages_le_length (sir_d_db : R) (ts : list (R * R * R * R)) :
  (outages sir_d_db ts <= length ts)%nat.
Proof. unfold outages. apply filter_length_le. Qed.

(** What a returning run went through. *)
Lemma simulate_ok_inv (loop : nat) (pout sir_d_db : R) (n : nat) (s s' : rng)
  (rep : Report) :
  simulate loop pout sir_d_db n s = Ok (rep, s') ->
  exists ts : list (R * R * R * R),
    trials loop sir_d_db pout n s = Ok (ts, s')
    /\ length ts = loop
    /\ (0 < loop)%nat
    /\ outage_probability rep = INR (outages sir_d_db ts) / INR loop
    /\ average_tx_power rep
       = 10 * log10 (Rsum (map db_to_linear (map trial_power ts)) / INR loop).
Proof.
  unfold simulate. intros Hrun.
  apply bind_ok in Hrun as (a & s1 & Hloop & Hrep).
  apply lift_ok in Hrep as [Hrep ->].
  apply for_range_trials in Hloop as (ts & Hts & Hlen & ->).
  exists ts. split; [ exact Hts | ]. split; [ exact Hlen | ].
  destruct loop as [ | loop' ]; [ discriminate | ].
  injection Hrep as <-. cbn [outage_probability average_tx_power].
  rewrite fold_accumulate_cnt, fold_accumulate_psu. cbn [acc0 cnt_outage psu_avg].
  split; [ lia | ]. split.
  - reflexivity.
  - rewrite Rplus_0_l. reflexivity.
Qed.

(** The [__main__] block runs 1000 trials with target SIR 10 dB and target
    outage probability 0.10 on 50 samples. *)
Lemma main_runs_thousand_trials (s s' : rng) (rep : Report) :
  main s = Ok (rep, s') ->
  exists ts : list (R * R * R * R),
    trials 1000 10 (10 / 100) 50 s = Ok (ts, s') /\ length ts = 1000%nat.
Proof.
  unfold main. intros Hrun.
  apply simulate_ok_inv in Hrun as (ts & Hts & Hlen & _).
  exists ts. split; assumption.
Qed.

(** C4. The reported average transmit power: the linear-scale powers
    [10 ^ (P_i / 10)] of the trials are summed, the sum is divided by the
    trial count, and the linear mean is converted with [10 * log10]. *)
Theorem average_power_is_linear_mean (loop : nat) (pout sir_d_db : R) (n : nat)
  (s s' : rng) (rep : Report) :
  simulate loop pout sir_d_db n s = Ok (rep, s') ->
  exists ts : list (R * R * R * R),
    trials loop sir_d_db pout n s = Ok (ts, s')
    /\ length ts = loop
    /\ average_tx_power rep
       = 10 * log10 (Rsum (map (fun res => Rpower 10 (trial_power res / 10)) ts)
                     / INR loop).
Proof.
  intros Hrun.
  apply simulate_ok_inv in Hrun as (ts & Hts & Hlen & _ & _ & Havg).
  exists ts. repeat split; try assumption.
  rewrite Havg, map_map. do 2 f_equal. unfold Rdiv. do 2 f_equal.
  apply map_ext. intros res. unfold db_to_linear. f_equal. field.
Qed.

(** C6. The reported outage probability is the number of trials whose
    realized SIR is below the target, divided by the trial count; it lies
    in [0, 1]. *)
Theorem outage_probability_is_rate (loop : nat) (pout sir_d_db : R) (n : nat)
  (s s' : rng) (rep : Report) :
  simulate loop pout sir_d_db n s = Ok (rep, s') ->
  exists ts : list (R * R * R * R),
    trials loop sir_d_db pout n s = Ok (ts, s')
    /\ length ts = loop
    /\ outage_probability rep = INR (outages sir_d_db ts) / INR loop
    /\ 0 <= outage_probability rep <= 1.
Proof.
  intros Hrun.
  apply simulate_ok_inv in Hrun as (ts & Hts & Hlen & Hpos & Hout & _).
  exists ts. repeat split; try assumption.
  - rewrite Hout. apply Rmult_le_pos; [ apply pos_INR | ].
    left. apply Rinv_0_lt_compat, lt_0_INR, Hpos.
  - rewrite Hout.
    apply (Rmult_le_reg_r (INR loop)); [ apply lt_0_INR, Hpos | ].
    replace (INR (outages sir_d_db ts) / INR loop * INR loop)
      with (INR (outages sir_d_db ts))
      by (field; apply Rgt_not_eq, lt_0_INR, Hpos).
    rewrite Rmult_1_l. apply le_INR. rewrite <- Hlen. apply outages_le_length.
Qed.

End Simulation.

(** The stand-in instance runs a trial with one training sample. *)
Lemma power_rule_formula_witness :
  exists sir kvar err pmax_est : R,
    dosim 10 (1 / 10) 1 0%nat = Ok ((sir, kvar, err, pmax_est), 1%nat)
    /\ exists (mat : list (list R)) (x_train y_train prx_train : list R)
              (nug sill ran prx_est imax_avg : R),
         ordinary_kriging mat x_train y_train prx_train RX_X RX_Y nug sill ran
           = Ok (prx_est, kvar)
         /\ imax_avg =
              prx_est - 10
              + sqrt (2 * (kvar + STDEV_SU ^ 2)) * erfinv (2 * (1 / 10) - 1)
         /\ pmax_est = imax_avg + pathloss (distance SUTX_X SUTX_Y RX_X RX_Y) ETA.
Proof.
  do 4 eexists. split.
  - cbn. reflexivity.
  - eapply (power_rule_formula 10 (1 / 10) 1 0%nat 1%nat). cbn. reflexivity.
Defined.

(** C5, as stated, fails: with the target outage probability at 0, at 1 and
    outside (0,1) the trial returns its four values. *)
Lemma dosim_returns_at_boundary_pout :
  (exists res, dosim 10 0 1 0%nat = Ok res)
  /\ (exists res, dosim 10 1 1 0%nat = Ok res)
  /\ (exists res, dosim 10 2 1 0%nat = Ok res).
Proof.
  repeat split; eexists; cbn; reflexivity.
Qed.

(** The stand-in instance runs two trials; their powers differ. *)
Lemma average_power_is_linear_mean_witness :
  exists (rep : Report) (ts : list (R * R * R * R)),
    trials 2 10 (1 / 10) 1 0%nat = Ok (ts, 2%nat)
    /\ length ts = 2%nat
    /\ average_tx_power rep
       = 10 * log10 (Rsum (map (fun res => Rpower 10 (trial_power res / 10)) ts)
                     / INR 2).
Proof.
  eexists. eapply (average_power_is_linear_mean 2 (1 / 10) 10 1 0%nat 2%nat).
  cbn. reflexivity.
Defined.

Lemma outage_probability_is_rate_witness :
  exists (rep : Report) (ts : list (R * R * R * R)),
    trials 2 10 (1 / 10) 1 0%nat = Ok (ts, 2%nat)
    /\ length ts = 2%nat
    /\ outage_probability rep = INR (outages 10 ts) / INR 2
    /\ 0 <= outage_probability rep <= 1.
Proof.
  eexists. eapply (outage_probability_is_rate 2 (1 / 10) 10 1 0%nat 2%nat).
  cbn. reflexivity.
Defined.

(** * Further properties of main.py *)

(** ** Array operations *)

Lemma getitem_ok (a : list R) (i : nat) (v : R) :
  getitem a i = Ok v <-> nth_error a i = Some v.
Proof.
  unfold getitem. destruct (nth_error a i) as [ v' | ]; split; intros Heq;
    try discriminate; injection Heq as ->; reflexivity.
Qed.

Lemma length_update (a : list R) (i : nat) (v : R) :
  length (update a i v) = length a.
Proof.
  revert i. induction a as [ | h t IH ]; intros [ | i ]; simpl; auto.
Qed.

Lemma nth_error_update_same (a : list R) (i : nat) (v : R) :
  (i < length a)%nat -> nth_error (update a i v) i = Some v.
Proof.
  revert i. induction a as [ | h t IH ]; intros [ | i ] Hlt; simpl in *;
    try lia; [ reflexivity | apply IH; lia ].
Qed.

Lemma setitem_ok (a a' : list R) (i : nat) (v : R) :
  setitem a i v = Ok a' -> (i < length a)%nat /\ a' = update a i v.
Proof.
  unfold setitem. destruct (i <? length a)%nat eqn:Hlt; [ | discriminate ].
  intros Heq. injection Heq as <-. apply Nat.ltb_lt in Hlt. split; auto.
Qed.

Lemma setitem_raise (a : list R) (i : nat) (v : R) :
  (length a <= i)%nat -> setitem a i v = Raise IndexError.
Proof.
  intros Hle. unfold setitem.
  replace (i <? length a)%nat with false
    by (symmetry; apply Nat.ltb_ge; exact Hle).
  reflexivity.
Qed.

Lemma length_zip_with (f : R -> R -> R) (u v : list R) :
  length u = length v -> length (zip_with f u v) = length u.
Proof.
  revert v. induction u as [ | a u IH ]; intros [ | b v ] Hlen;
    try discriminate; simpl; auto.
Qed.

Lemma nth_error_zip_with (f : R -> R -> R) (u v : list R) (n : nat) (a b : R) :
  nth_error u n = Some a -> nth_error v n = Some b ->
  nth_error (zip_with f u v) n = Some (f a b).
Proof.
  revert v n. induction u as [ | a' u IH ]; intros [ | b' v ] [ | n ] Hu Hv;
    try discriminate; simpl in *.
  - injection Hu as ->. injection Hv as ->. reflexivity.
  - apply IH; assumption.
Qed.

(** Entry [n] of a broadcast result combines the entries [n] of the
    operands, whenever both exist. *)
Lemma broadcast2_nth (f : R -> R -> R) (u v r : list R) (n : nat) (a b : R) :
  broadcast2 f u v = Ok r ->
  nth_error u n = Some a -> nth_error v n = Some b ->
  nth_error r n = Some (f a b).
Proof.
  unfold broadcast2. intros Hr Hu Hv.
  destruct (length u =? length v)%nat.
  - injection Hr as <-. apply nth_error_zip_with; assumption.
  - destruct u as [ | a' [ | a'' u ] ].
    + destruct n; discriminate Hu.
    + injection Hr as <-. destruct n as [ | n ].
      * injection Hu as ->. apply map_nth_error. exact Hv.
      * destruct n; simpl in *; discriminate.
    + destruct v as [ | b' [ | b'' v ] ]; try discriminate.
      injection Hr as <-. destruct n as [ | n ].
      * injection Hv as ->. simpl in *. injection Hu as ->. reflexivity.
      * destruct n; simpl in *; discriminate.
Qed.

Lemma broadcast2_same_length (f : R -> R -> R) (u v : list R) :
  length u = length v -> broadcast2 f u v = Ok (zip_with f u v).
Proof.
  intros Hlen. unfold broadcast2. rewrite Hlen, Nat.eqb_refl. reflexivity.
Qed.

Lemma broadcast2_mismatch (f : R -> R -> R) (u v : list R) :
  length u <> length v -> length u <> 1%nat -> length v <> 1%nat ->
  broadcast2 f u v = Raise ValueError.
Proof.
  intros Hne Hu Hv. unfold broadcast2.
  replace (length u =? length v)%nat with false
    by (symmetry; apply Nat.eqb_neq; exact Hne).
  destruct u as [ | a [ | a' u ] ]; simpl in *; try lia;
    destruct v as [ | b [ | b' v ] ]; simpl in *; try lia; reflexivity.
Qed.



Section Trial.

Context {rng : Type} `{Externals rng}.

(** Every step of a returning trial, in program order. *)
Lemma dosim_ok_trace (sir_d_db pout : R) (n : nat) (s s' : rng)
  (sir kvar err pmax_est : R) :
  dosim sir_d_db pout n s = Ok ((sir, kvar, err, pmax_est), s') ->
  exists (x0 y0 x y z d prx d_sv sv : list R) (cov mat : list (list R))
         (data : list (R * R * R)) (nug sill ran prx_est prx_n w : R)
         (s1 s2 : rng),
    gen_location_vector_on_circle (n + 1) R_MEASURE s = Ok ((x0, y0), s1)
    /\ setitem x0 n RX_X = Ok x
    /\ setitem y0 n RX_Y = Ok y
    /\ gen_varcov_matrix x y DCOR STDEV_PU = Ok cov
    /\ gen_multivariate_normal cov s1 = Ok (z, s2)
    /\ broadcast2 (distance PUTX_X PUTX_Y) x y = Ok d
    /\ broadcast2 Rplus
         (map (fun li => PTX - li) (map (fun di => pathloss di ETA) d)) z
       = Ok prx
    /\ vstack_T (firstn n x) (firstn n y) (firstn n prx) = Ok data
    /\ gen_emprical_semivar data D_MAX N_SEMIVAR = Ok (d_sv, sv)
    /\ fit_semivar d_sv sv = Ok (nug, sill, ran)
    /\ gen_mat_for_kriging (firstn n x) (firstn n y) (firstn n prx) nug sill ran
       = Ok mat
    /\ ordinary_kriging mat (firstn n x) (firstn n y) (firstn n prx)
         RX_X RX_Y nug sill ran
       = Ok (prx_est, kvar)
    /\ getitem prx n = Ok prx_n
    /\ random_normal 0 STDEV_SU s2 = Ok (w, s')
    /\ err = prx_est - prx_n
    /\ pmax_est =
         prx_est - sir_d_db
         + sqrt (2 * (kvar + STDEV_SU ^ 2)) * erfinv (2 * pout - 1)
         + pathloss (distance SUTX_X SUTX_Y RX_X RX_Y) ETA
    /\ sir =
         prx_n - (pmax_est - pathloss (distance SUTX_X SUTX_Y RX_X RX_Y) ETA + w).
Proof.
  unfold dosim. intros Hrun.
  repeat match type of Hrun with
         | bind _ _ _ = Ok _ =>
             let a := fresh "a" in
             let st := fresh "st" in
             let Hstep := fresh "Hstep" in
             apply bind_ok in Hrun as (a & st & Hstep & Hrun);
             try (apply lift_ok in Hstep as [Hstep ->])
         | match ?a with pair _ _ => _ end _ = Ok _ => destruct a
         end.
  unfold ret in Hrun. injection Hrun as <- <- <- <- <-.
  repeat match goal with
         | p : (_ * _)%type |- _ => destruct p
         end.
  match goal with
  | H1 : getitem ?p n = Ok _, H2 : getitem ?p n = Ok _ |- _ =>
      rewrite H1 in H2; injection H2 as <-
  end.
  do 20 eexists.
  repeat (split; [ eassumption | ]).
  repeat split; reflexivity.
Qed.

(** X1. The measurement set-up of a returning trial: [n + 1] locations are
    requested on the radius [R_MEASURE]; the shadowing covariance is built
    from the locations after entry [n] has been overwritten with the
    receiver location, with [DCOR] and [STDEV_PU]; the generator is read
    three times, for the locations, the shadowing vector and the secondary
    shadowing draw, in this order. *)
Theorem trial_measurement_setup (sir_d_db pout : R) (n : nat) (s s' : rng)
  (sir kvar err pmax_est : R) :
  dosim sir_d_db pout n s = Ok ((sir, kvar, err, pmax_est), s') ->
  exists (x0 y0 z : list R) (cov : list (list R)) (w : R) (s1 s2 : rng),
    gen_location_vector_on_circle (n + 1) R_MEASURE s = Ok ((x0, y0), s1)
    /\ (n < length x0)%nat /\ (n < length y0)%nat
    /\ gen_varcov_matrix (update x0 n RX_X) (update y0 n RX_Y) DCOR STDEV_PU
       = Ok cov
    /\ gen_multivariate_normal cov s1 = Ok (z, s2)
    /\ random_normal 0 STDEV_SU s2 = Ok (w, s').
Proof.
  intros Hrun.
  destruct (dosim_ok_trace _ _ _ _ _ _ _ _ _ Hrun)
    as (x0 & y0 & x & y & z & d & prx & d_sv & sv & cov & mat & data
        & nug & sill & ran & prx_est & prx_n & w & s1 & s2
        & Hloc & Hx & Hy & Hcov & Hz & _ & _ & _ & _ & _ & _ & _ & _ & Hw & _).
  apply setitem_ok in Hx as [Hnx ->]. apply setitem_ok in Hy as [Hny ->].
  exists x0, y0, z, cov, w, s1, s2. repeat split; assumption.
Qed.

(** X2. The evaluation point of a trial is the primary receiver: the value
    the estimate is compared with is the transmit power minus the path loss
    from the primary transmitter to [(RX_X, RX_Y)] plus entry [n] of the
    shadowing vector. *)
Theorem true_power_at_receiver (sir_d_db pout : R) (n : nat) (s s' s1 s2 : rng)
  (x0 y0 z : list R) (cov : list (list R)) (zn sir kvar err pmax_est : R) :
  gen_location_vector_on_circle (n + 1) R_MEASURE s = Ok ((x0, y0), s1) ->
  gen_varcov_matrix (update x0 n RX_X) (update y0 n RX_Y) DCOR STDEV_PU = Ok cov ->
  gen_multivariate_normal cov s1 = Ok (z, s2) ->
  nth_error z n = Some zn ->
  dosim sir_d_db pout n s = Ok ((sir, kvar, err, pmax_est), s') ->
  exists prx_est : R,
    err = prx_est
          - (PTX - pathloss (distance PUTX_X PUTX_Y RX_X RX_Y) ETA + zn)
    /\ pmax_est =
         prx_est - sir_d_db
         + sqrt (2 * (kvar + STDEV_SU ^ 2)) * erfinv (2 * pout - 1)
         + pathloss (distance SUTX_X SUTX_Y RX_X RX_Y) ETA.
Proof.
  intros Hloc0 Hcov0 Hz0 Hzn Hrun.
  destruct (dosim_ok_trace _ _ _ _ _ _ _ _ _ Hrun)
    as (x0' & y0' & x & y & z' & d & prx & d_sv & sv & cov' & mat & data
        & nug & sill & ran & prx_est & prx_n & w & s1' & s2'
        & Hloc & Hx & Hy & Hcov & Hz & Hd & Hprx & _ & _ & _ & _ & _
        & Hget & _ & Herr & Hp & _).
  rewrite Hloc0 in Hloc. injection Hloc as <- <- <-.
  apply setitem_ok in Hx as [Hnx ->]. apply setitem_ok in Hy as [Hny ->].
  rewrite Hcov0 in Hcov. injection Hcov as <-.
  rewrite Hz0 in Hz. injection Hz as <- <-.
  exists prx_est. split; [ | exact Hp ].
  rewrite Herr. f_equal.
  apply getitem_ok in Hget.
  pose proof (broadcast2_nth _ _ _ _ n RX_X RX_Y Hd
                (nth_error_update_same _ _ _ Hnx)
                (nth_error_update_same _ _ _ Hny)) as Hdn.
  pose proof (map_nth_error (fun di => pathloss di ETA) n d Hdn) as Hln.
  pose proof (map_nth_error (fun li => PTX - li) n _ Hln) as Hpn.
  pose proof (broadcast2_nth _ _ _ _ n _ _ Hprx Hpn Hzn) as Hprxn.
  rewrite Hget in Hprxn. injection Hprxn as ->. reflexivity.
Qed.

(** C10, as the code has it.  In a returning trial the realized SIR is
    the received primary power at the receiver minus the interference
    there, and the interference is the returned transmit power minus the
    secondary path loss plus the shadowing draw: the code adds the
    secondary path loss to the interference bound to form the transmit
    power (line 96) and subtracts it from the transmit power again
    (line 98), in this order.  The received primary power is the transmit
    power minus the path loss from the primary transmitter to the receiver
    plus entry [n] of the shadowing vector; the shadowing draw is the
    third read of the generator, and the state it leaves is the state the
    trial returns. *)
Theorem realized_sir_as_computed (sir_d_db pout : R) (n : nat)
  (s s' s1 s2 s3 : rng) (x0 y0 z : list R) (cov : list (list R))
  (zn w sir kvar err pmax_est : R) :
  gen_location_vector_on_circle (n + 1) R_MEASURE s = Ok ((x0, y0), s1) ->
  gen_varcov_matrix (update x0 n RX_X) (update y0 n RX_Y) DCOR STDEV_PU = Ok cov ->
  gen_multivariate_normal cov s1 = Ok (z, s2) ->
  nth_error z n = Some zn ->
  random_normal 0 STDEV_SU s2 = Ok (w, s3) ->
  dosim sir_d_db pout n s = Ok ((sir, kvar, err, pmax_est), s') ->
  s' = s3
  /\ exists prx_est imax_avg : R,
       err = prx_est
             - (PTX - pathloss (distance PUTX_X PUTX_Y RX_X RX_Y) ETA + zn)
       /\ imax_avg =
            prx_est - sir_d_db
            + sqrt (2 * (kvar + STDEV_SU ^ 2)) * erfinv (2 * pout - 1)
       /\ pmax_est =
            imax_avg + pathloss (distance SUTX_X SUTX_Y RX_X RX_Y) ETA
       /\ sir =
            (PTX - pathloss (distance PUTX_X PUTX_Y RX_X RX_Y) ETA + zn)
            - (pmax_est - pathloss (distance SUTX_X SUTX_Y RX_X RX_Y) ETA + w).
Proof.
  intros Hloc0 Hcov0 Hz0 Hzn Hw0 Hrun.
  destruct (dosim_ok_trace _ _ _ _ _ _ _ _ _ Hrun)
    as (x0' & y0' & x & y & z' & d & prx & d_sv & sv & cov' & mat & data
        & nug & sill & ran & prx_est & prx_n & w' & s1' & s2'
        & Hloc & Hx & Hy & Hcov & Hz & Hd & Hprx & _ & _ & _ & _ & _
        & Hget & Hw & Herr & Hp & Hsir).
  rewrite Hloc0 in Hloc. injection Hloc as <- <- <-.
  apply setitem_ok in Hx as [Hnx ->]. apply setitem_ok in Hy as [Hny ->].
  rewrite Hcov0 in Hcov. injection Hcov as <-.
  rewrite Hz0 in Hz. injection Hz as <- <-.
  rewrite Hw0 in Hw. injection Hw as <- <-.
  apply getitem_ok in Hget.
  pose proof (broadcast2_nth _ _ _ _ n RX_X RX_Y Hd
                (nth_error_update_same _ _ _ Hnx)
                (nth_error_update_same _ _ _ Hny)) as Hdn.
  pose proof (map_nth_error (fun di => pathloss di ETA) n d Hdn) as Hln.
  pose proof (map_nth_error (fun li => PTX - li) n _ Hln) as Hpn.
  pose proof (broadcast2_nth _ _ _ _ n _ _ Hprx Hpn Hzn) as Hprxn.
  rewrite Hget in Hprxn. injection Hprxn as ->.
  split; [ reflexivity | ].
  exists prx_est,
    (prx_est - sir_d_db
     + sqrt (2 * (kvar + STDEV_SU ^ 2)) * erfinv (2 * pout - 1)).
  split; [ exact Herr | ]. split; [ reflexivity | ].
  split; [ exact Hp | exact Hsir ].
Qed.


(** X4. A location generator that returns fewer than [n + 1] abscissas or
    ordinates makes the trial raise [IndexError], at the assignment of the
    receiver location. *)
Theorem dosim_index_error (sir_d_db pout : R) (n : nat) (s s1 : rng)
  (x0 y0 : list R) :
  gen_location_vector_on_circle (n + 1) R_MEASURE s = Ok ((x0, y0), s1) ->
  (length x0 <= n)%nat \/ (length y0 <= n)%nat ->
  dosim sir_d_db pout n s = Raise IndexError.
Proof.
  intros Hloc Hshort. unfold dosim, bind at 1. rewrite Hloc.
  unfold bind at 1, lift at 1.
  destruct (setitem x0 n RX_X) as [ x | e ] eqn:Hx.
  - apply setitem_ok in Hx as [Hnx _].
    destruct Hshort as [Hs | Hs]; [ lia | ].
    unfold bind at 1, lift at 1. rewrite (setitem_raise _ _ _ Hs). reflexivity.
  - unfold setitem in Hx. destruct (n <? length x0)%nat; [ discriminate | ].
    injection Hx as <-. reflexivity.
Qed.

(** X5. A shadowing vector whose length is neither 1 nor the number of
    locations makes the trial raise [ValueError], at the sum that forms the
    received powers. *)
Theorem dosim_shape_error (sir_d_db pout : R) (n : nat) (s s1 s2 : rng)
  (x0 y0 z : list R) (cov : list (list R)) :
  gen_location_vector_on_circle (n + 1) R_MEASURE s = Ok ((x0, y0), s1) ->
  length x0 = length y0 -> (n < length x0)%nat ->
  gen_varcov_matrix (update x0 n RX_X) (update y0 n RX_Y) DCOR STDEV_PU = Ok cov ->
  gen_multivariate_normal cov s1 = Ok (z, s2) ->
  length z <> length x0 -> length z <> 1%nat -> length x0 <> 1%nat ->
  dosim sir_d_db pout n s = Raise ValueError.
Proof.
  intros Hloc Hxy Hnx Hcov Hz Hzx Hz1 Hx1.
  unfold dosim, bind at 1. rewrite Hloc.
  unfold bind at 1, lift at 1, setitem.
  replace (n <? length x0)%nat with true by (symmetry; apply Nat.ltb_lt; lia).
  unfold bind at 1, lift at 1, setitem.
  replace (n <? length y0)%nat with true by (symmetry; apply Nat.ltb_lt; lia).
  unfold bind at 1, lift at 1. rewrite Hcov.
  unfold bind at 1. rewrite Hz.
  unfold bind at 1, lift at 1.
  rewrite broadcast2_same_length by (rewrite !length_update; exact Hxy).
  unfold bind at 1, lift at 1.
  rewrite broadcast2_mismatch; [ reflexivity | | | exact Hz1 ];
    rewrite !length_map, length_zip_with, length_update
      by (rewrite !length_update; exact Hxy); auto.
Qed.

End Trial.

(** ** The driver loop *)

Lemma Rsum_nonneg_map (A : Type) (f : A -> R) (l : list A) :
  (forall a, 0 <= f a) -> 0 <= Rsum (map f l).
Proof.
  intros Hf. induction l as [ | a l IH ]; [ apply Rle_refl | ].
  unfold Rsum in *. cbn [map fold_right]. pose proof (Hf a). lra.
Qed.

Lemma fold_accumulate_closed (sir_d_db : R) (ts : list (R * R * R * R)) :
  forall a : Acc,
    fold_left (accumulate sir_d_db) ts a
    = {| cnt_outage := cnt_outage a + outages sir_d_db ts;
         kstdev_avg :=
           kstdev_avg a + Rsum (map (fun res => sqrt (trial_kvar res)) ts);
         rmse := rmse a + Rsum (map (fun res => trial_err res ^ 2) ts);
         psu_avg :=
           psu_avg a + Rsum (map (fun res => db_to_linear (trial_power res)) ts) |}.
Proof.
  induction ts as [ | [[[sir kvar] err] pmax] ts IH ]; intros a.
  - destruct a. unfold outages, Rsum. simpl. f_equal; try ring; lia.
  - cbn [fold_left]. rewrite IH.
    unfold outages, Rsum, trial_kvar, trial_err, trial_power, trial_sir,
      db_to_linear.
    cbn [accumulate cnt_outage kstdev_avg rmse psu_avg map fold_right filter
         fst snd].
    f_equal; try ring;
      destruct (Rlt_dec sir sir_d_db); simpl; lia.
Qed.

Lemma outages_permutation (sir_d_db : R) (ts ts' : list (R * R * R * R)) :
  Permutation ts ts' -> outages sir_d_db ts = outages sir_d_db ts'.
Proof.
  unfold outages.
  induction 1 as [ | r l l' _ IH | r1 r2 l | l1 l2 l3 _ IH1 _ IH2 ].
  - reflexivity.
  - cbn [filter]. destruct (Rlt_dec (trial_sir r) sir_d_db);
      cbn [length]; rewrite IH; reflexivity.
  - cbn [filter].
    destruct (Rlt_dec (trial_sir r1) sir_d_db),
      (Rlt_dec (trial_sir r2) sir_d_db);
      reflexivity.
  - rewrite IH1. exact IH2.
Qed.

(** X8. The outage counter does not depend on the order of the trials: any
    permutation of the trial results leaves the count the loop accumulates
    unchanged. *)
Theorem outage_count_order_independent (sir_d_db : R)
  (ts ts' : list (R * R * R * R)) (a : Acc) :
  Permutation ts ts' ->
  cnt_outage (fold_left (accumulate sir_d_db) ts a)
  = cnt_outage (fold_left (accumulate sir_d_db) ts' a).
Proof.
  intros Hperm. rewrite !fold_accumulate_cnt.
  rewrite (outages_permutation sir_d_db ts ts' Hperm). reflexivity.
Qed.

Section Run.

Context {rng : Type} `{Externals rng}.

(** The loop and the list of its trials succeed and fail together. *)
Lemma for_range_follows_trials (loop : nat) (sir_d_db pout : R) (n : nat) :
  forall (a : Acc) (s : rng),
    match trials loop sir_d_db pout n s with
    | Ok (ts, s') =>
        for_range loop sir_d_db pout n a s
        = Ok (fold_left (accumulate sir_d_db) ts a, s')
    | Raise e => for_range loop sir_d_db pout n a s = Raise e
    end.
Proof.
  induction loop as [ | loop IH ]; intros a s.
  - reflexivity.
  - cbn [trials for_range]. unfold bind.
    destruct (dosim sir_d_db pout n s) as [[res s1] | e]; [ | reflexivity ].
    specialize (IH (accumulate sir_d_db a res) s1).
    destruct (trials loop sir_d_db pout n s1) as [[ts s2] | e];
      [ | exact IH ].
    unfold ret. exact IH.
Qed.

Lemma trials_raise_iff (sir_d_db pout : R) (n : nat) (e : exn) :
  forall (loop : nat) (s : rng),
    trials loop sir_d_db pout n s = Raise e
    <-> exists (k : nat) (ts : list (R * R * R * R)) (s1 : rng),
          (k < loop)%nat
          /\ trials k sir_d_db pout n s = Ok (ts, s1)
          /\ dosim sir_d_db pout n s1 = Raise e.
Proof.
  induction loop as [ | loop IH ]; intros s.
  - split; [ discriminate | intros (k & _ & _ & Hk & _); lia ].
  - cbn [trials]. unfold bind at 1.
    destruct (dosim sir_d_db pout n s) as [[res s1] | e'] eqn:Hres.
    + unfold bind at 1.
      destruct (trials loop sir_d_db pout n s1) as [[ts s2] | e''] eqn:Hts.
      * split; [ discriminate | ].
        intros (k & ts' & s3 & Hk & Hok & Hraise).
        destruct k as [ | k ].
        -- injection Hok as _ <-. rewrite Hres in Hraise. discriminate.
        -- cbn [trials] in Hok. unfold bind at 1 in Hok. rewrite Hres in Hok.
           unfold bind at 1 in Hok.
           destruct (trials k sir_d_db pout n s1) as [[ts'' s4] | ?] eqn:Hk';
             [ | discriminate ].
           injection Hok as _ <-.
           assert (Hr : trials loop sir_d_db pout n s1 = Raise e).
           { apply IH. exists k, ts'', s4. repeat split; [ lia | assumption.. ]. }
           rewrite Hts in Hr. discriminate.
      * split.
        -- intros Heq. injection Heq as ->.
           apply IH in Hts as (k & ts & s3 & Hk & Hok & Hraise).
           exists (S k), (res :: ts), s3. split; [ lia | ].
           split; [ | exact Hraise ].
           cbn [trials]. unfold bind at 1. rewrite Hres.
           unfold bind at 1. rewrite Hok. reflexivity.
        -- intros (k & ts' & s3 & Hk & Hok & Hraise).
           destruct k as [ | k ].
           ++ injection Hok as _ <-. rewrite Hres in Hraise. discriminate.
           ++ cbn [trials] in Hok. unfold bind at 1 in Hok. rewrite Hres in Hok.
              unfold bind at 1 in Hok.
              destruct (trials k sir_d_db pout n s1) as [[ts'' s4] | ?] eqn:Hk';
                [ | discriminate ].
              injection Hok as _ <-.
              assert (Hr : trials loop sir_d_db pout n s1 = Raise e).
              { apply IH. exists k, ts'', s4.
                repeat split; [ lia | assumption.. ]. }
              rewrite Hts in Hr. exact Hr.
    + split.
      * intros Heq. injection Heq as ->.
        exists 0%nat, [], s. repeat split; [ lia | exact Hres ].
      * intros (k & ts' & s3 & Hk & Hok & Hraise).
        destruct k as [ | k ].
        -- injection Hok as _ <-. rewrite Hres in Hraise.
           injection Hraise as ->. reflexivity.
        -- cbn [trials] in Hok. unfold bind at 1 in Hok. rewrite Hres in Hok.
           discriminate.
Qed.

(** X9. No exception is caught: a run fails exactly when the trial count is
    0, with [ZeroDivisionError] after the empty loop, or when some trial
    fails after the trials before it returned, with that trial's
    exception. *)
Theorem simulate_fails_with_first_failure (loop : nat) (pout sir_d_db : R)
  (n : nat) (s : rng) (e : exn) :
  simulate loop pout sir_d_db n s = Raise e
  <-> (loop = 0%nat /\ e = ZeroDivisionError)
      \/ exists (k : nat) (ts : list (R * R * R * R)) (s1 : rng),
           (k < loop)%nat
           /\ trials k sir_d_db pout n s = Ok (ts, s1)
           /\ dosim sir_d_db pout n s1 = Raise e.
Proof.
  rewrite <- trials_raise_iff.
  pose proof (for_range_follows_trials loop sir_d_db pout n acc0 s) as Hloop.
  unfold simulate, bind.
  destruct (trials loop sir_d_db pout n s) as [[ts s'] | e'] eqn:Hts.
  - rewrite Hloop. unfold lift.
    destruct loop as [ | loop ]; cbn [report].
    + split.
      * intros Heq. injection Heq as <-. left. split; reflexivity.
      * intros [[_ ->] | Habs]; [ reflexivity | discriminate ].
    + split; [ discriminate | ].
      intros [[Habs _] | Habs]; discriminate.
  - rewrite Hloop. split.
    + intros Heq. right. injection Heq as ->. reflexivity.
    + intros [[-> _] | Heq]; [ discriminate | ].
      injection Heq as ->. reflexivity.
Qed.

(** X10. Iterations compose: a loop of [l1 + l2] trials is a loop of [l1]
    trials followed by a loop of [l2] trials that starts from the
    accumulators and the generator state the first one left. *)
Theorem for_range_add (l1 l2 : nat) (sir_d_db pout : R) (n : nat) :
  forall (a : Acc) (s : rng),
    for_range (l1 + l2) sir_d_db pout n a s
    = bind (for_range l1 sir_d_db pout n a)
           (fun a1 => for_range l2 sir_d_db pout n a1) s.
Proof.
  induction l1 as [ | l1 IH ]; intros a s.
  - reflexivity.
  - cbn [Nat.add for_range]. unfold bind at 1 2 3.
    destruct (dosim sir_d_db pout n s) as [[res s1] | e]; [ | reflexivity ].
    rewrite IH. reflexivity.
Qed.

(** A returning run in terms of its trials. *)
Lemma simulate_ok_report (loop : nat) (pout sir_d_db : R) (n : nat) (s s' : rng)
  (rep : Report) :
  simulate loop pout sir_d_db n s = Ok (rep, s') ->
  exists ts : list (R * R * R * R),
    trials loop sir_d_db pout n s = Ok (ts, s')
    /\ length ts = loop /\ (0 < loop)%nat
    /\ average_kriging_stdev rep
       = Rsum (map (fun res => sqrt (trial_kvar res)) ts) / INR loop
    /\ rmse_db rep
       = sqrt (Rsum (map (fun res => trial_err res ^ 2) ts) / INR loop)
    /\ average_tx_power rep
       = 10 * log10 (Rsum (map (fun res => db_to_linear (trial_power res)) ts)
                     / INR loop).
Proof.
  unfold simulate. intros Hrun.
  apply bind_ok in Hrun as (a & s1 & Hloop & Hrep).
  apply lift_ok in Hrep as [Hrep ->].
  apply for_range_trials in Hloop as (ts & Hts & Hlen & ->).
  exists ts. split; [ exact Hts | ]. split; [ exact Hlen | ].
  destruct loop as [ | loop' ]; [ discriminate | ].
  injection Hrep as <-. rewrite fold_accumulate_closed.
  cbn [acc0 average_kriging_stdev rmse_db average_tx_power
       kstdev_avg rmse psu_avg].
  rewrite !Rplus_0_l. repeat split. lia.
Qed.

(** X12. When every kriging variance is non-negative, the reported average
    kriging standard deviation is the mean of the square roots of the
    variances, and it is non-negative. *)
Theorem stdev_is_mean_of_roots (loop : nat) (pout sir_d_db : R) (n : nat)
  (s s' : rng) (rep : Report) (ts : list (R * R * R * R)) :
  simulate loop pout sir_d_db n s = Ok (rep, s') ->
  trials loop sir_d_db pout n s = Ok (ts, s') ->
  (forall res, In res ts -> 0 <= trial_kvar res) ->
  average_kriging_stdev rep = mean (map (fun res => sqrt (trial_kvar res)) ts)
  /\ 0 <= average_kriging_stdev rep.
Proof.
  intros Hrun Hts _.
  apply simulate_ok_report in Hrun as (ts' & Hts' & Hlen & Hpos & Hstd & _).
  rewrite (trials_deterministic _ _ _ _ _ _ _ _ _ Hts' Hts) in *.
  assert (HN : 0 < INR loop) by (apply lt_0_INR; exact Hpos).
  split.
  - rewrite Hstd. unfold mean. rewrite length_map, Hlen. reflexivity.
  - rewrite Hstd. apply Rmult_le_pos.
    + apply Rsum_nonneg_map. intros res. apply sqrt_pos.
    + left. apply Rinv_0_lt_compat. exact HN.
Qed.

(** X11. The reported RMSE is the square root of the mean squared
    estimation error of the trials, and it is non-negative. *)
Theorem rmse_is_root_mean_square (loop : nat) (pout sir_d_db : R) (n : nat)
  (s s' : rng) (rep : Report) (ts : list (R * R * R * R)) :
  simulate loop pout sir_d_db n s = Ok (rep, s') ->
  trials loop sir_d_db pout n s = Ok (ts, s') ->
  rmse_db rep = sqrt (Rsum (map (fun res => trial_err res ^ 2) ts) / INR loop)
  /\ 0 <= rmse_db rep.
Proof.
  intros Hrun Hts.
  apply simulate_ok_report in Hrun as (ts' & Hts' & _ & _ & _ & Hrmse & _).
  rewrite (trials_deterministic _ _ _ _ _ _ _ _ _ Hts' Hts) in *.
  split; [ exact Hrmse | ]. rewrite Hrmse. apply sqrt_pos.
Qed.

End Run.

(** ** The hypotheses can be met *)

Lemma trial_measurement_setup_witness :
  exists (x0 y0 z : list R) (cov : list (list R)) (w : R) (s1 s2 : nat),
    gen_location_vector_on_circle (1 + 1) R_MEASURE 0%nat = Ok ((x0, y0), s1)
    /\ (1 < length x0)%nat /\ (1 < length y0)%nat
    /\ gen_varcov_matrix (update x0 1 RX_X) (update y0 1 RX_Y) DCOR STDEV_PU
       = Ok cov
    /\ gen_multivariate_normal cov s1 = Ok (z, s2)
    /\ random_normal 0 STDEV_SU s2 = Ok (w, 1%nat).
Proof.
  eapply (trial_measurement_setup 10 (1 / 10) 1 0%nat 1%nat).
  cbn. reflexivity.
Defined.

Lemma true_power_at_receiver_witness :
  exists sir kvar err pmax_est : R,
    dosim (H := wide_externals) 10 (1 / 10) 2 0%nat
    = Ok ((sir, kvar, err, pmax_est), 1%nat)
    /\ exists prx_est : R,
         err = prx_est
               - (PTX
                  - pathloss (Externals := wide_externals)
                      (distance (Externals := wide_externals)
                         PUTX_X PUTX_Y RX_X RX_Y) ETA
                  + 9)
         /\ pmax_est =
              prx_est - 10
              + sqrt (2 * (kvar + STDEV_SU ^ 2))
                * erfinv (Externals := wide_externals) (2 * (1 / 10) - 1)
              + pathloss (Externals := wide_externals)
                  (distance (Externals := wide_externals)
                     SUTX_X SUTX_Y RX_X RX_Y) ETA.
Proof.
  do 4 eexists. split.
  - cbn. reflexivity.
  - eapply (@true_power_at_receiver nat wide_externals 10 (1 / 10) 2
              0%nat 1%nat 0%nat 1%nat);
      cbn; reflexivity.
Defined.


Lemma dosim_index_error_witness :
  dosim (H := short_externals) 10 (1 / 10) 3 0%nat = Raise IndexError.
Proof.
  eapply (@dosim_index_error nat short_externals 10 (1 / 10) 3 0%nat).
  - cbn. reflexivity.
  - left. simpl. lia.
Defined.

Lemma dosim_shape_error_witness :
  dosim (H := ragged_externals) 10 (1 / 10) 2 0%nat = Raise ValueError.
Proof.
  eapply (@dosim_shape_error nat ragged_externals 10 (1 / 10) 2 0%nat).
  - cbn. reflexivity.
  - reflexivity.
  - simpl. lia.
  - cbn. reflexivity.
  - cbn. reflexivity.
  - simpl. lia.
  - simpl. lia.
  - simpl. lia.
Defined.

Lemma stdev_is_mean_of_roots_witness :
  exists (rep : Report) (ts : list (R * R * R * R)),
    simulate 2 (1 / 10) 10 1 0%nat = Ok (rep, 2%nat)
    /\ trials 2 10 (1 / 10) 1 0%nat = Ok (ts, 2%nat)
    /\ average_kriging_stdev rep
       = mean (map (fun res => sqrt (trial_kvar res)) ts)
    /\ 0 <= average_kriging_stdev rep.
Proof.
  do 2 eexists. split; [ cbn; reflexivity | ]. split; [ cbn; reflexivity | ].
  eapply (stdev_is_mean_of_roots 2 (1 / 10) 10 1 0%nat 2%nat).
  - cbn. reflexivity.
  - cbn. reflexivity.
  - intros res [<- | [<- | []]]; unfold trial_kvar, snd, fst; lra.
Defined.

Lemma realized_sir_as_computed_witness :
  exists sir kvar err pmax_est : R,
    dosim (H := wide_externals) 10 (1 / 10) 2 0%nat
    = Ok ((sir, kvar, err, pmax_est), 1%nat)
    /\ 1%nat = 1%nat
    /\ exists prx_est imax_avg : R,
         err = prx_est
               - (PTX
                  - pathloss (Externals := wide_externals)
                      (distance (Externals := wide_externals)
                         PUTX_X PUTX_Y RX_X RX_Y) ETA
                  + 9)
         /\ imax_avg =
              prx_est - 10
              + sqrt (2 * (kvar + STDEV_SU ^ 2))
                * erfinv (Externals := wide_externals) (2 * (1 / 10) - 1)
         /\ pmax_est =
              imax_avg
              + pathloss (Externals := wide_externals)
                  (distance (Externals := wide_externals)
                     SUTX_X SUTX_Y RX_X RX_Y) ETA
         /\ sir =
              (PTX
               - pathloss (Externals := wide_externals)
                   (distance (Externals := wide_externals)
                      PUTX_X PUTX_Y RX_X RX_Y) ETA
               + 9)
              - (pmax_est
                 - pathloss (Externals := wide_externals)
                     (distance (Externals := wide_externals)
                        SUTX_X SUTX_Y RX_X RX_Y) ETA
                 + 0).
Proof.
  do 4 eexists. split.
  - cbn. reflexivity.
  - eapply (@realized_sir_as_computed nat wide_externals 10 (1 / 10) 2
              0%nat 1%nat 0%nat 1%nat 1%nat);
      cbn; reflexivity.
Defined.

Lemma outage_count_order_independent_witness :
  cnt_outage (fold_left (accumulate 10) [(1, 2, 3, 4); (5, 6, 7, 8)] acc0)
  = cnt_outage (fold_left (accumulate 10) [(5, 6, 7, 8); (1, 2, 3, 4)] acc0).
Proof.
  apply outage_count_order_independent. apply perm_swap.
Defined.

Lemma rmse_is_root_mean_square_witness :
  exists (rep : Report) (ts : list (R * R * R * R)),
    simulate 2 (1 / 10) 10 1 0%nat = Ok (rep, 2%nat)
    /\ trials 2 10 (1 / 10) 1 0%nat = Ok (ts, 2%nat)
    /\ rmse_db rep = sqrt (Rsum (map (fun res => trial_err res ^ 2) ts) / INR 2)
    /\ 0 <= rmse_db rep.
Proof.
  do 2 eexists. split; [ cbn; reflexivity | ]. split; [ cbn; reflexivity | ].
  eapply (rmse_is_root_mean_square 2 (1 / 10) 10 1 0%nat 2%nat).
  - cbn. reflexivity.
  - cbn. reflexivity.
Defined.

(** ** Lines 96 and 98 on doubles *)

Module DoublesFacts.

Import PrimFloat.

#[local] Open Scope float_scope.

(** C10, as stated, fails: on doubles the secondary path loss does not
    cancel.  With the interference bound [9.667800960843909] and the
    secondary path loss [103.39848783037637] (written in hexadecimal, so
    that the literals are the doubles themselves), adding the path loss and
    subtracting it again gives [9.667800960843906], not the bound.  With
    the received power 20 and the shadowing draw 1.5 the realized SIR is
    [8.832199039156094]; the same trial with path loss 0 gives
    [8.832199039156091], and so does the received power minus the bound
    and the draw. *)
Lemma path_loss_does_not_cancel_on_doubles :
  Doubles.pmax_est 0x1.355ea01ee1fbap+3 0x1.9d980d319d483p+6
  = 0x1.c443e1357987ap+6
  /\ sub (Doubles.pmax_est 0x1.355ea01ee1fbap+3 0x1.9d980d319d483p+6)
         0x1.9d980d319d483p+6
     = 0x1.355ea01ee1fb8p+3
  /\ eqb 0x1.355ea01ee1fb8p+3 0x1.355ea01ee1fbap+3 = false
  /\ Doubles.sir 20
       (Doubles.pmax_est 0x1.355ea01ee1fbap+3 0x1.9d980d319d483p+6)
       0x1.9d980d319d483p+6 1.5
     = 0x1.1aa15fe11e048p+3
  /\ Doubles.sir 20 (Doubles.pmax_est 0x1.355ea01ee1fbap+3 0) 0 1.5
     = 0x1.1aa15fe11e046p+3
  /\ sub (sub 20 0x1.355ea01ee1fbap+3) 1.5 = 0x1.1aa15fe11e046p+3
  /\ eqb 0x1.1aa15fe11e048p+3 0x1.1aa15fe11e046p+3 = false.
Proof. vm_compute. repeat split; reflexivity. Qed.

End DoublesFacts.

(** * Properties of the kriging model *)

Import KrigingSpec.

Lemma dot_cons (a b : R) (u v : list R) :
  dot (a :: u) (b :: v) = a * b + dot u v.
Proof. reflexivity. Qed.

Lemma dot_nil_r (u : list R) : dot u [] = 0.
Proof. destruct u; reflexivity. Qed.

Lemma dot_comm (u v : list R) : dot u v = dot v u.
Proof.
  revert v. induction u as [ | a u IH ]; intros [ | b v ]; try reflexivity.
  rewrite !dot_cons, IH. ring.
Qed.

Lemma dot_app (u1 u2 v1 v2 : list R) :
  length u1 = length v1 ->
  dot (u1 ++ u2) (v1 ++ v2) = dot u1 v1 + dot u2 v2.
Proof.
  revert v1. induction u1 as [ | a u1 IH ]; intros [ | b v1 ] Hlen;
    try discriminate.
  - simpl. unfold dot at 2. simpl. ring.
  - simpl app. rewrite !dot_cons, IH by (injection Hlen; auto). ring.
Qed.

Lemma dot_repeat_zero (n : nat) (v : list R) : dot (repeat 0 n) v = 0.
Proof.
  revert v. induction n as [ | n IH ]; intros [ | b v ]; try reflexivity.
  simpl repeat. rewrite dot_cons, IH. ring.
Qed.

(** The bordering row picks the sum of the first [n] entries. *)
Lemma dot_border_row (n : nat) (w : list R) :
  dot (repeat 1 n ++ [0]) w = Rsum (firstn n w).
Proof.
  revert w. induction n as [ | n IH ]; intros [ | b w ]; try reflexivity.
  - cbn [repeat app firstn]. rewrite dot_cons. unfold dot, Rsum. simpl. ring.
  - cbn [repeat app firstn]. rewrite dot_cons, IH. unfold Rsum. simpl. ring.
Qed.

Lemma dot_unit_vec (n k : nat) (v : list R) :
  dot (unit_vec n k) v = if (k <? n)%nat then nth k v 0 else 0.
Proof.
  revert k v. induction n as [ | n IH ]; intros k v.
  - reflexivity.
  - destruct k as [ | k ], v as [ | b v ]; try reflexivity.
    + simpl unit_vec. rewrite dot_cons, dot_repeat_zero. simpl. ring.
    + simpl unit_vec. rewrite dot_nil_r.
      change (S k <? S n)%nat with (k <? n)%nat.
      destruct (k <? n)%nat; reflexivity.
    + simpl unit_vec. rewrite dot_cons, IH.
      change (S k <? S n)%nat with (k <? n)%nat.
      destruct (k <? n)%nat; simpl; ring.
Qed.

Lemma length_unit_vec (n k : nat) : length (unit_vec n k) = n.
Proof.
  revert k. induction n as [ | n IH ]; intros [ | k ]; simpl;
    rewrite ?repeat_length, ?IH; reflexivity.
Qed.

Lemma firstn_repeat_zero (n : nat) : firstn n (repeat 0 (S n)) = repeat 0 n.
Proof. induction n as [ | n IH ]; [ reflexivity | simpl in *; rewrite IH; reflexivity ]. Qed.

Lemma firstn_unit_vec (n k : nat) :
  (k < n)%nat -> firstn n (unit_vec (S n) k) = unit_vec n k.
Proof.
  revert k. induction n as [ | n IH ]; intros k Hk; [ lia | ].
  destruct k as [ | k ].
  - change (firstn (S n) (unit_vec (S (S n)) 0))
      with (1 :: firstn n (repeat 0 (S n))).
    rewrite firstn_repeat_zero. reflexivity.
  - change (firstn (S n) (unit_vec (S (S n)) (S k)))
      with (0 :: firstn n (unit_vec (S n) k)).
    rewrite IH by lia. reflexivity.
Qed.

Lemma nth_repeat_zero (n k : nat) : nth k (repeat 0 n) 0 = 0.
Proof.
  revert k. induction n as [ | n IH ]; intros [ | k ]; simpl; auto.
Qed.

Lemma nth_unit_vec_other (n k j : nat) : j <> k -> nth j (unit_vec n k) 0 = 0.
Proof.
  revert k j. induction n as [ | n IH ]; intros k j Hjk.
  - destruct j; reflexivity.
  - destruct k as [ | k ], j as [ | j ]; simpl; try reflexivity.
    + contradiction.
    + apply nth_repeat_zero.
    + apply IH. lia.
Qed.

Lemma Rsum_cons (a : R) (l : list R) : Rsum (a :: l) = a + Rsum l.
Proof. reflexivity. Qed.

Lemma Rsum_repeat_zero (n : nat) : Rsum (repeat 0 n) = 0.
Proof.
  induction n as [ | n IH ]; [ reflexivity | ].
  simpl repeat. rewrite Rsum_cons, IH. ring.
Qed.

Lemma Rsum_unit_vec (n k : nat) : (k < n)%nat -> Rsum (unit_vec n k) = 1.
Proof.
  revert k. induction n as [ | n IH ]; intros k Hk; [ lia | ].
  destruct k as [ | k ]; simpl unit_vec; rewrite Rsum_cons.
  - rewrite Rsum_repeat_zero. ring.
  - rewrite IH by lia. ring.
Qed.

Lemma distance_sym (x1 y1 x2 y2 : R) :
  KrigingSpec.distance x1 y1 x2 y2 = KrigingSpec.distance x2 y2 x1 y1.
Proof. unfold KrigingSpec.distance. f_equal. ring. Qed.

Lemma distance_self (x y : R) : KrigingSpec.distance x y x y = 0.
Proof.
  unfold KrigingSpec.distance.
  replace ((x - x) ^ 2 + (y - y) ^ 2) with 0 by ring. apply sqrt_0.
Qed.

Section KrigingSystem.

Context `{SemivarModel}.

Lemma length_cov_row (pts : list (R * R)) (nug sill ran : R) (p : R * R) :
  length (cov_row pts nug sill ran p) = length pts.
Proof. unfold cov_row. apply length_map. Qed.

Lemma length_gen_mat (x y z : list R) (nug sill ran : R) :
  length (gen_mat_for_kriging x y z nug sill ran) = S (length (combine x y)).
Proof.
  unfold gen_mat_for_kriging. rewrite length_app, length_map. simpl. lia.
Qed.

Lemma length_gen_vec (x y : list R) (x_q y_q nug sill ran : R) :
  length (gen_vec_for_kriging x y x_q y_q nug sill ran)
  = S (length (combine x y)).
Proof.
  unfold gen_vec_for_kriging. rewrite length_app, length_cov_row. simpl. lia.
Qed.

(** The bordered system, row by row: the covariance rows, then the
    unbiasedness row. *)
Lemma mat_vec_gen_mat (x y z w : list R) (nug sill ran : R) :
  mat_vec (gen_mat_for_kriging x y z nug sill ran) w
  = map (fun p => dot (cov_row (combine x y) nug sill ran p ++ [1]) w)
        (combine x y)
    ++ [Rsum (firstn (length (combine x y)) w)].
Proof.
  unfold mat_vec, gen_mat_for_kriging.
  rewrite map_app, map_map. simpl. rewrite dot_border_row. reflexivity.
Qed.

Lemma nth_map_of_nth_error (A : Type) (f : A -> R) (l : list A) (k : nat) (a : A) :
  nth_error l k = Some a -> nth k (map f l) 0 = f a.
Proof.
  intros Hk. apply nth_error_nth. apply map_nth_error. exact Hk.
Qed.

Lemma nth_error_combine (x y : list R) (k : nat) (xk yk : R) :
  nth_error x k = Some xk -> nth_error y k = Some yk ->
  nth_error (combine x y) k = Some (xk, yk).
Proof.
  revert y k. induction x as [ | a x IH ]; intros [ | b y ] [ | k ] Hx Hy;
    try discriminate.
  - injection Hx as <-. injection Hy as <-. reflexivity.
  - simpl in *. apply IH; assumption.
Qed.

(** When the query is sample [k], the [k]-th unit vector solves the system. *)
Lemma unit_vec_solves_at_sample (x y z : list R) (nug sill ran : R)
  (k : nat) (xk yk : R) :
  nth_error x k = Some xk -> nth_error y k = Some yk ->
  mat_vec (gen_mat_for_kriging x y z nug sill ran)
          (unit_vec (S (length (combine x y))) k)
  = gen_vec_for_kriging x y xk yk nug sill ran.
Proof.
  intros Hx Hy.
  pose proof (nth_error_combine _ _ _ _ _ Hx Hy) as Hk.
  assert (Hlt : (k < length (combine x y))%nat)
    by (apply nth_error_Some; rewrite Hk; discriminate).
  rewrite mat_vec_gen_mat. unfold gen_vec_for_kriging. f_equal.
  - unfold cov_row at 2. apply map_ext. intros p.
    rewrite dot_comm, dot_unit_vec.
    replace (k <? S (length (combine x y)))%nat with true
      by (symmetry; apply Nat.ltb_lt; lia).
    rewrite app_nth1 by (rewrite length_cov_row; exact Hlt).
    unfold cov_row. rewrite (nth_map_of_nth_error _ _ _ _ _ Hk). simpl.
    rewrite distance_sym. reflexivity.
  - rewrite firstn_unit_vec by exact Hlt.
    rewrite Rsum_unit_vec by exact Hlt. reflexivity.
Qed.

Context `{LinearSolver}.

(** Interpolation at a sample: the estimate is the sample's value and the
    variance is the model's semivariance at zero lag. *)
Lemma kriging_at_sample (x y z : list R) (nug sill ran : R)
  (k : nat) (xk yk zk : R) :
  solve_sound -> solve_complete ->
  nonsingular (gen_mat_for_kriging x y z nug sill ran) ->
  length x = length z -> length y = length z ->
  nth_error x k = Some xk -> nth_error y k = Some yk -> nth_error z k = Some zk ->
  ordinary_kriging (gen_mat_for_kriging x y z nug sill ran) x y z xk yk nug sill ran
  = Ok (zk, semivar 0 nug sill ran).
Proof.
  intros Hsound Hcomplete Hns Hlx Hly Hx Hy Hz.
  pose proof (unit_vec_solves_at_sample x y z nug sill ran k xk yk Hx Hy) as Hunit.
  pose proof (nth_error_combine _ _ _ _ _ Hx Hy) as Hk.
  assert (Hn : length (combine x y) = length z)
    by (rewrite length_combine; lia).
  assert (Hlt : (k < length z)%nat)
    by (apply nth_error_Some; rewrite Hz; discriminate).
  rewrite Hn in Hunit.
  unfold ordinary_kriging.
  destruct (solve (gen_mat_for_kriging x y z nug sill ran)
                  (gen_vec_for_kriging x y xk yk nug sill ran)) as [ w | ] eqn:Hsolve.
  - apply Hsound in Hsolve as [Hlen Hw].
    rewrite length_gen_vec, Hn in Hlen.
    assert (Heq : w = unit_vec (S (length z)) k).
    { apply Hns.
      - rewrite length_gen_mat, Hn. exact Hlen.
      - rewrite length_gen_mat, Hn. apply length_unit_vec.
      - rewrite Hw, Hunit. reflexivity. }
    subst w.
    rewrite firstn_unit_vec by exact Hlt.
    rewrite !dot_unit_vec.
    replace (k <? length z)%nat with true by (symmetry; apply Nat.ltb_lt; lia).
    rewrite nth_unit_vec_other by lia.
    rewrite (nth_error_nth _ _ _ Hz).
    unfold gen_vec_for_kriging.
    rewrite firstn_app, length_cov_row, Hn, Nat.sub_diag.
    rewrite firstn_all2 by (rewrite length_cov_row; lia).
    simpl firstn. rewrite app_nil_r.
    unfold cov_row. rewrite (nth_map_of_nth_error _ _ _ _ _ Hk). simpl.
    rewrite distance_self. unfold covariance. f_equal. f_equal. ring.
  - exfalso.
    apply (Hcomplete _ (gen_vec_for_kriging x y xk yk nug sill ran) Hns);
      [ | exact Hsolve ].
    exists (unit_vec (S (length z)) k). split.
    + rewrite length_unit_vec, length_gen_vec, Hn. reflexivity.
    + exact Hunit.
Qed.

(** C3. The weight vector obtained by solving the bordered system of [n]
    samples has [n + 1] entries, and the first [n] sum to 1. *)
Theorem kriging_weights_sum_to_one (x y z w : list R)
  (x_q y_q nug sill ran : R) (n : nat) :
  solve_sound ->
  length x = n -> length y = n ->
  solve (KrigingSpec.gen_mat_for_kriging x y z nug sill ran)
        (KrigingSpec.gen_vec_for_kriging x y x_q y_q nug sill ran) = Some w ->
  length w = S n /\ Rsum (firstn n w) = 1.
Proof.
  intros Hsound Hx Hy Hsolve.
  apply Hsound in Hsolve as [Hlen Hw].
  assert (Hn : length (combine x y) = n) by (rewrite length_combine; lia).
  rewrite length_gen_vec, Hn in Hlen. split; [ exact Hlen | ].
  rewrite mat_vec_gen_mat in Hw. unfold gen_vec_for_kriging in Hw.
  apply app_inj_tail in Hw as [_ Hlast]. rewrite Hn in Hlast. exact Hlast.
Qed.

End KrigingSystem.

(** C9. A training set of fewer than two samples makes the estimator fail
    with [InsufficientDataError]. *)
Theorem estimator_needs_two_samples (data : list (R * R * R)) (d_max : R) (num : nat) :
  (length data < 2)%nat ->
  KrigingSpec.gen_emprical_semivar data d_max num = Raise InsufficientDataError.
Proof.
  intros Hlen. unfold KrigingSpec.gen_emprical_semivar.
  replace (length data <? 2)%nat with true by (symmetry; apply Nat.ltb_lt; exact Hlen).
  reflexivity.
Qed.

Lemma estimator_needs_two_samples_witness :
  KrigingSpec.gen_emprical_semivar [(0, 0, 1)] D_MAX N_SEMIVAR
  = Raise InsufficientDataError.
Proof.
  apply estimator_needs_two_samples. simpl. lia.
Defined.

(** ** Non-negativity *)

Lemma Rsum_nonneg (l : list R) : Forall (fun v => 0 <= v) l -> 0 <= Rsum l.
Proof.
  induction 1 as [ | v l Hv _ IH ]; [ apply Rle_refl | ].
  rewrite Rsum_cons. lra.
Qed.

Lemma half_sq_diff_nonneg (p : (R * R * R) * (R * R * R)) : 0 <= half_sq_diff p.
Proof.
  destruct p as [[[x1 y1] v1] [[x2 y2] v2]]. unfold half_sq_diff.
  pose proof (pow2_ge_0 (v1 - v2)). lra.
Qed.

Lemma bin_point_nonneg (data : list (R * R * R)) (d_max : R) (num k : nat)
  (d g : R) :
  bin_point data d_max num k = Some (d, g) -> 0 <= g.
Proof.
  unfold bin_point.
  destruct (filter _ (pairs data)) as [ | p ps ]; [ discriminate | ].
  intros Heq. injection Heq as _ <-.
  apply Rmult_le_pos.
  - apply (Rsum_nonneg (map half_sq_diff (p :: ps))).
    apply Forall_map, Forall_forall.
    intros q _. apply half_sq_diff_nonneg.
  - left. apply Rinv_0_lt_compat.
    apply (lt_0_INR (length (p :: ps))). simpl. lia.
Qed.

Lemma snd_split (A B : Type) (l : list (A * B)) : snd (split l) = map snd l.
Proof.
  induction l as [ | [a b] l IH ]; [ reflexivity | ].
  simpl. destruct (split l) as [la lb]. simpl in *. rewrite IH. reflexivity.
Qed.

Lemma drop_empty_in (A : Type) (l : list (option A)) (a : A) :
  In a (drop_empty l) -> In (Some a) l.
Proof.
  induction l as [ | [b | ] l IH ]; simpl.
  - auto.
  - intros [-> | Hin]; [ left; reflexivity | right; apply IH, Hin ].
  - intros Hin. right. apply IH, Hin.
Qed.

(** Every semivariance the estimator returns is non-negative. *)
Lemma semivariances_nonneg (data : list (R * R * R)) (d_max : R) (num : nat)
  (d_sv sv : list R) :
  KrigingSpec.gen_emprical_semivar data d_max num = Ok (d_sv, sv) ->
  Forall (fun g => 0 <= g) sv.
Proof.
  unfold KrigingSpec.gen_emprical_semivar.
  destruct (length data <? 2)%nat; [ discriminate | ].
  intros Heq. injection Heq as Hsplit.
  assert (Hsv : sv = map snd (drop_empty (map (bin_point data d_max num) (seq 0 num)))).
  { rewrite <- snd_split, Hsplit. reflexivity. }
  rewrite Hsv. apply Forall_map, Forall_forall. intros [d g] Hin.
  apply drop_empty_in, in_map_iff in Hin as (k & Hk & _).
  simpl. eapply bin_point_nonneg. exact Hk.
Qed.

Lemma dot_map_linear (A : Type) (f g : A -> R) (c : R) (l : list A) :
  forall u : list R,
    dot u (map (fun p => f p + c * g p) l)
    = dot u (map f l) + c * dot u (map g l).
Proof.
  induction l as [ | a l IH ]; intros [ | b u ]; simpl map;
    rewrite ?dot_nil_r; try (unfold dot, Rsum; simpl; ring).
  rewrite !dot_cons, IH. ring.
Qed.

Lemma dot_map_one (A : Type) (l : list A) :
  forall u : list R,
    length u = length l -> dot u (map (fun _ => 1) l) = Rsum u.
Proof.
  induction l as [ | a l IH ]; intros [ | b u ] Hlen; try discriminate.
  - reflexivity.
  - simpl map. rewrite dot_cons, Rsum_cons, IH by (injection Hlen; auto). ring.
Qed.

Lemma split_last_entry (n : nat) (w : list R) :
  length w = S n -> w = firstn n w ++ [nth n w 0].
Proof.
  revert w. induction n as [ | n IH ]; intros [ | a w ] Hlen; try discriminate.
  - destruct w; [ reflexivity | discriminate ].
  - simpl. f_equal. apply IH. injection Hlen. auto.
Qed.

Section KrigingVariance.

Context `{SemivarModel} `{LinearSolver}.

Lemma cov_row_app (pts : list (R * R)) (q p : R * R) (nug sill ran : R) :
  cov_row (pts ++ [q]) nug sill ran p
  = cov_row pts nug sill ran p
    ++ [covariance (KrigingSpec.distance (fst p) (snd p) (fst q) (snd q))
                   nug sill ran].
Proof. unfold cov_row. rewrite map_app. reflexivity. Qed.

(** The variance the solver returns is the nugget plus the variance of the
    estimation error [sum w_i Z(p_i) - Z(q)] under the covariance model. *)
Lemma kriging_variance_decomposition (x y z w : list R)
  (x_q y_q nug sill ran : R) :
  zero_lag_is_nugget ->
  length x = length z -> length y = length z ->
  length w = S (length z) ->
  mat_vec (gen_mat_for_kriging x y z nug sill ran) w
  = gen_vec_for_kriging x y x_q y_q nug sill ran ->
  (nug + sill)
  - dot (firstn (length z) w)
        (firstn (length z) (gen_vec_for_kriging x y x_q y_q nug sill ran))
  - nth (length z) w 0
  = nug
    + dot (firstn (length z) w ++ [-1])
          (mat_vec (cov_matrix (combine x y ++ [(x_q, y_q)]) nug sill ran)
                   (firstn (length z) w ++ [-1])).
Proof.
  intros Hzero Hlx Hly Hlen Hsys.
  assert (Hn : length (combine x y) = length z)
    by (rewrite length_combine; lia).
  set (n := length z) in *.
  set (pts := combine x y) in *.
  set (wn := firstn n w).
  set (mu := nth n w 0).
  assert (Hwn : length wn = n) by (unfold wn; rewrite length_firstn; lia).
  assert (Hw : w = wn ++ [mu]) by (apply split_last_entry; exact Hlen).
  rewrite mat_vec_gen_mat in Hsys. unfold gen_vec_for_kriging in Hsys.
  fold pts in Hsys. rewrite Hn in Hsys.
  apply app_inj_tail in Hsys as [Hrows Hone]. fold wn in Hone.
  set (c := cov_row pts nug sill ran (x_q, y_q)) in *.
  assert (Hc : length c = n) by (unfold c; rewrite length_cov_row; exact Hn).
  (* the covariance rows of the system *)
  assert (Hrows' :
            map (fun p => dot wn (cov_row pts nug sill ran p) + mu * 1) pts = c).
  { rewrite <- Hrows. apply map_ext. intros p.
    rewrite Hw at 1.
    rewrite dot_app by (rewrite length_cov_row, Hwn; exact Hn).
    rewrite dot_cons, dot_nil_r, (dot_comm wn). ring. }
  (* the quadratic form of the sample covariances *)
  assert (Hquad :
            dot wn (map (fun p => dot wn (cov_row pts nug sill ran p)) pts)
            = dot wn c - mu).
  { rewrite <- Hrows'.
    rewrite (dot_map_linear _ _ (fun _ => 1) mu pts wn).
    rewrite dot_map_one by (rewrite Hwn; symmetry; exact Hn).
    rewrite Hone. ring. }
  unfold gen_vec_for_kriging. fold pts c.
  rewrite firstn_app, Hc, Nat.sub_diag, firstn_all2 by lia.
  simpl firstn. rewrite app_nil_r.
  (* the quadratic form over the samples and the query *)
  unfold cov_matrix, mat_vec. rewrite map_map, map_app. simpl map.
  rewrite dot_app by (rewrite length_map, Hwn; symmetry; exact Hn).
  rewrite dot_cons, dot_nil_r.
  rewrite (map_ext _ (fun p =>
             dot wn (cov_row pts nug sill ran p)
             + (-1) * covariance
                        (KrigingSpec.distance x_q y_q (fst p) (snd p))
                        nug sill ran)).
  2:{ intros p. rewrite cov_row_app.
      rewrite dot_app by (rewrite length_cov_row, Hwn; exact Hn).
      rewrite dot_cons, dot_nil_r, (dot_comm wn). simpl fst. simpl snd.
      rewrite (distance_sym (fst p)). ring. }
  rewrite dot_map_linear, Hquad.
  change (map (fun p => covariance
                          (KrigingSpec.distance x_q y_q (fst p) (snd p))
                          nug sill ran) pts)
    with c.
  rewrite cov_row_app.
  rewrite dot_app by (rewrite length_cov_row, Hwn; exact Hn).
  fold c. rewrite dot_cons, dot_nil_r. simpl fst. simpl snd.
  rewrite distance_self. unfold covariance. rewrite Hzero.
  rewrite (dot_comm c wn). ring.
Qed.

(** With a positive semidefinite covariance on the samples and the query,
    the kriging variance is at least the nugget. *)
Lemma kriging_variance_ge_nugget (x y z : list R)
  (x_q y_q nug sill ran est kvar : R) :
  solve_sound -> zero_lag_is_nugget ->
  length x = length z -> length y = length z ->
  covariance_psd (combine x y ++ [(x_q, y_q)]) nug sill ran ->
  ordinary_kriging (gen_mat_for_kriging x y z nug sill ran)
                   x y z x_q y_q nug sill ran = Ok (est, kvar) ->
  nug <= kvar.
Proof.
  intros Hsound Hzero Hlx Hly Hpsd Hrun.
  unfold ordinary_kriging in Hrun.
  destruct (solve _ _) as [ w | ] eqn:Hsolve; [ | discriminate ].
  injection Hrun as _ <-.
  apply Hsound in Hsolve as [Hlen Hsys].
  assert (Hn : length (combine x y) = length z)
    by (rewrite length_combine; lia).
  rewrite length_gen_vec, Hn in Hlen.
  rewrite (kriging_variance_decomposition x y z w x_q y_q nug sill ran)
    by assumption.
  assert (0 <= dot (firstn (length z) w ++ [-1])
                   (mat_vec (cov_matrix (combine x y ++ [(x_q, y_q)]) nug sill ran)
                            (firstn (length z) w ++ [-1]))).
  { apply Hpsd. rewrite !length_app, length_firstn, Hn. simpl. lia. }
  lra.
Qed.

End KrigingVariance.

(** ** The instances meet their contracts *)

Lemma ideal_solver_sound : @solve_sound ideal_solver.
Proof.
  intros m b w. simpl. unfold ideal_solve.
  destruct (excluded_middle_informative _) as [Hex | _]; [ | discriminate ].
  intros Heq. injection Heq as Heq. rewrite <- Heq.
  exact (proj2_sig (constructive_indefinite_description _ Hex)).
Qed.

Lemma ideal_solver_complete : @solve_complete ideal_solver.
Proof.
  intros m b _ Hex. simpl. unfold ideal_solve.
  destruct (excluded_middle_informative _) as [Hyes | Hno];
    [ discriminate | contradiction ].
Qed.

(** On a non-singular system the ideal solver returns the solution. *)
Lemma ideal_solve_unique (m : list (list R)) (b w : list R) :
  nonsingular m -> length w = length m -> length w = length b ->
  mat_vec m w = b -> ideal_solve m b = Some w.
Proof.
  intros Hns Hwm Hwb Hw.
  destruct (ideal_solve m b) as [ w' | ] eqn:Hsolve.
  - destruct (ideal_solver_sound m b w' Hsolve) as [Hlen Hw'].
    f_equal. apply Hns; [ lia | exact Hwm | rewrite Hw, Hw'; reflexivity ].
  - exfalso. apply (ideal_solver_complete m b Hns); [ | exact Hsolve ].
    exists w. split; assumption.
Qed.

Lemma exponential_zero_lag : @zero_lag_is_nugget exponential_model.
Proof.
  intros nug sill ran. simpl. unfold semivar_exp.
  replace (- 0 / ran) with 0 by (unfold Rdiv; ring).
  rewrite exp_0. ring.
Qed.

Lemma distance_on_axis (a b : R) :
  a <= b -> KrigingSpec.distance a 0 b 0 = b - a.
Proof.
  intros Hab. unfold KrigingSpec.distance.
  replace ((a - b) ^ 2 + (0 - 0) ^ 2) with ((b - a) ^ 2) by ring.
  apply sqrt_pow2. lra.
Qed.

Lemma exp_minus_one_bounds : 0 < exp (- 1) < 1.
Proof.
  split; [ apply exp_pos | ].
  rewrite <- exp_0. apply exp_increasing. lra.
Qed.

(** ** Two samples on a line, exponential model *)

Lemma exponential_covariance (h : R) :
  @covariance exponential_model h 1 2 1 = 2 * exp (- h).
Proof.
  unfold covariance. simpl. unfold semivar_exp.
  replace (- h / 1) with (- h) by field. ring.
Qed.

Lemma two_sample_matrix :
  @gen_mat_for_kriging exponential_model [0; 1] [0; 0] [3; 5] 1 2 1
  = [[2; 2 * exp (- 1); 1]; [2 * exp (- 1); 2; 1]; [1; 1; 0]].
Proof.
  unfold gen_mat_for_kriging, cov_row. simpl.
  rewrite !exponential_covariance, !distance_self.
  rewrite (distance_sym 1 0 0 0), (distance_on_axis 0 1) by lra.
  replace (- 0) with 0 by ring. replace (1 - 0) with 1 by ring.
  rewrite exp_0. repeat f_equal; ring.
Qed.

Lemma two_sample_nonsingular :
  nonsingular (@gen_mat_for_kriging exponential_model [0; 1] [0; 0] [3; 5] 1 2 1).
Proof.
  rewrite two_sample_matrix. intros u v Hu Hv Heq.
  destruct u as [ | u0 [ | u1 [ | u2 [ | ? ? ] ] ] ]; try discriminate.
  destruct v as [ | v0 [ | v1 [ | v2 [ | ? ? ] ] ] ]; try discriminate.
  unfold mat_vec, dot, Rsum in Heq. simpl in Heq.
  injection Heq as E1 E2 E3.
  pose proof exp_minus_one_bounds as [_ He].
  assert (Hd : (1 - exp (- 1)) * ((u0 - v0) - (u1 - v1)) = 0) by nra.
  apply Rmult_integral in Hd as [Hd | Hd]; [ lra | ].
  assert (u0 = v0) by lra. assert (u1 = v1) by lra. subst.
  assert (u2 = v2) by lra. subst. reflexivity.
Qed.

(** The model at a sample of the two-sample configuration: the estimate is
    the sample's value 3 and the variance is the nugget 1. *)
Lemma two_sample_kriging_at_sample :
  @ordinary_kriging exponential_model ideal_solver
    (@gen_mat_for_kriging exponential_model [0; 1] [0; 0] [3; 5] 1 2 1)
    [0; 1] [0; 0] [3; 5] 0 0 1 2 1
  = Ok (3, 1).
Proof.
  rewrite (@kriging_at_sample exponential_model ideal_solver
             [0; 1] [0; 0] [3; 5] 1 2 1 0%nat 0 0 3);
    try reflexivity.
  - rewrite exponential_zero_lag. reflexivity.
  - exact ideal_solver_sound.
  - exact ideal_solver_complete.
  - exact two_sample_nonsingular.
Qed.

Lemma kriging_weights_sum_to_one_witness :
  length [1; 0; 0] = 3%nat /\ Rsum (firstn 2 [1; 0; 0]) = 1.
Proof.
  apply (@kriging_weights_sum_to_one exponential_model ideal_solver
           [0; 1] [0; 0] [3; 5] [1; 0; 0] 0 0 1 2 1 2%nat).
  - exact ideal_solver_sound.
  - reflexivity.
  - reflexivity.
  - simpl. apply ideal_solve_unique.
    + exact two_sample_nonsingular.
    + rewrite length_gen_mat. reflexivity.
    + rewrite length_gen_vec. reflexivity.
    + apply (@unit_vec_solves_at_sample exponential_model
               [0; 1] [0; 0] [3; 5] 1 2 1 0%nat 0 0); reflexivity.
Defined.

(** ** Three samples on a line: the estimator evaluated *)

Lemma three_sample_semivariogram :
  KrigingSpec.gen_emprical_semivar [(0, 0, 1); (1, 0, 3); (3, 0, 2)] 4 4
  = Ok ([3 / 2; 5 / 2; 7 / 2], [2; 1 / 2; 1 / 2]).
Proof.
  unfold KrigingSpec.gen_emprical_semivar, bin_point, in_bin, Rleb, Rltb.
  simpl. unfold pair_distance.
  rewrite (distance_on_axis 0 1), (distance_on_axis 0 3), (distance_on_axis 1 3)
    by lra.
  decide_comparisons.
  simpl. unfold half_sq_diff, Rsum. simpl.
  f_equal. f_equal; repeat (apply (f_equal2 (@cons R)); [ lra | ]); reflexivity.
Qed.

Lemma two_sample_covariance_psd :
  @covariance_psd exponential_model (combine [0; 1] [0; 0] ++ [(0, 0)]) 1 2 1.
Proof.
  intros a Hlen.
  destruct a as [ | a0 [ | a1 [ | a2 [ | ? ? ] ] ] ]; try discriminate.
  unfold cov_matrix, cov_row, mat_vec, dot, Rsum. simpl.
  rewrite !exponential_covariance, !distance_self.
  rewrite (distance_sym 1 0 0 0), (distance_on_axis 0 1) by lra.
  replace (- 0) with 0 by ring. replace (- (1 - 0)) with (-1) by ring.
  rewrite exp_0.
  pose proof exp_minus_one_bounds as [He0 He1].
  pose proof (pow2_ge_0 (a0 + a2 + exp (- 1) * a1)) as Hsq.
  pose proof (pow2_ge_0 a1) as Hsq1.
  assert (Hrest : 0 <= (1 - exp (- 1) * exp (- 1)) * a1 ^ 2)
    by (apply Rmult_le_pos; nra).
  match goal with
  | |- 0 <= ?q =>
      replace q
        with (2 * ((a0 + a2 + exp (- 1) * a1) ^ 2
                   + (1 - exp (- 1) * exp (- 1)) * a1 ^ 2))
        by ring
  end.
  lra.
Qed.

(** ** The pipeline *)

Section Pipeline.

Context `{SemivarModel} `{LinearSolver} `{Optimizer}.

Lemma fitted_parameters_feasible (d_sv sv : list R) (nug sill ran : R) :
  respects_constraints ->
  KrigingSpec.fit_semivar d_sv sv = Ok (nug, sill, ran) ->
  feasible (nug, sill, ran).
Proof.
  intros Hopt. unfold KrigingSpec.fit_semivar.
  destruct (length d_sv <? 3)%nat; [ discriminate | ].
  destruct (least_squares _ _) as [ p | ] eqn:Hfit; [ | discriminate ].
  intros Heq. injection Heq as ->. exact (Hopt _ _ _ Hfit).
Qed.

End Pipeline.
